(** * The datatip (hover tooltip) manager of nuclide-datatip

    A shallow embedding of [DatatipManager.js]: the position resolver
    [getBufferPosition], the fetch orchestrator [fetchDatatip], the
    per-editor state machine [DatatipManagerForEditor] and the registry
    [DatatipManager], followed by the properties of the specification
    that concern them.

    JavaScript runs every handler to completion, so a handler is a
    function from worlds to worlds; the only suspension point of the
    file, the [await] in [_startFetching], splits that method into the
    part run when it is called and the part run when the promise
    settles. *)

From Stdlib Require Import ZArith List String Bool Lia Permutation Sorted.
From stdpp Require Import base option list gmap.
Import ListNotations.

Local Open Scope Z_scope.

(** ** Points and ranges of the host editor *)

Module Geometry.

(** [atom$Point]: a row and a column. *)
Record Point := mkPoint { row : Z; column : Z }.

(** [Point::compare]: rows first, then columns. *)
Definition compare (a b : Point) : comparison :=
  match Z.compare (row a) (row b) with
  | Eq => Z.compare (column a) (column b)
  | c => c
  end.

Definition isLessThan (a b : Point) : bool :=
  match compare a b with Lt => true | _ => false end.
Definition isLessThanOrEqual (a b : Point) : bool :=
  match compare a b with Gt => false | _ => true end.
Definition isGreaterThan (a b : Point) : bool :=
  match compare a b with Gt => true | _ => false end.
Definition isGreaterThanOrEqual (a b : Point) : bool :=
  match compare a b with Lt => false | _ => true end.

(** The order of points as a proposition. *)
Definition ple (a b : Point) : Prop :=
  row a < row b \/ (row a = row b /\ column a <= column b).

(** [atom$Range]. *)
Record Range := mkRange { range_start : Point; range_end : Point }.

(** [new Range(pointA, pointB)]: the constructor orders its two points. *)
Definition newRange (pointA pointB : Point) : Range :=
  if isLessThanOrEqual pointA pointB
  then mkRange pointA pointB
  else mkRange pointB pointA.

(** Modelled from the spec: [Range::union] belongs to the host editor and
    is not in the sources; the specification describes a union as the
    smallest range covering both, which is what the host computes from
    the smaller start and the larger end. *)
Definition union (r other : Range) : Range :=
  newRange
    (if isLessThan (range_start r) (range_start other)
     then range_start r else range_start other)
    (if isGreaterThan (range_end r) (range_end other)
     then range_end r else range_end other).

(** Modelled from the spec: [Range::containsPoint] of the host editor,
    not in the sources; a point lies in a range when it is between its
    two ends, both included. *)
Definition containsPoint (r : Range) (p : Point) : bool :=
  isGreaterThanOrEqual p (range_start r) && isLessThanOrEqual p (range_end r).

(** A range as the constructor leaves it: the start is not after the end. *)
Definition wf_range (r : Range) : Prop := ple (range_start r) (range_end r).

(** [covers R r]: [R] reaches at least as far as [r] on both sides. *)
Definition covers (R r : Range) : Prop :=
  ple (range_start R) (range_start r) /\ ple (range_end r) (range_end R).

(** The smallest range covering every range of a list. *)
Definition smallest_cover (R : Range) (rs : list Range) : Prop :=
  wf_range R /\
  Forall (covers R) rs /\
  (forall R', Forall (covers R') rs -> covers R' R).

End Geometry.

(** ** The host editor, as far as the manager looks at it *)

Module Host.
Import Geometry.

(** A pixel position; the host's numbers are floating point pixels, taken
    here as integers. *)
Record Pixel := mkPixel { px_left : Z; px_top : Z }.

Record MouseEvent := mkMouseEvent { clientX : Z; clientY : Z }.

(** [editorView.component]: the three conversions [getBufferPosition]
    asks for. *)
Record TextComponent := mkTextComponent {
  screenPositionForMouseEvent : MouseEvent -> Point;
  pixelPositionForMouseEvent : MouseEvent -> Pixel;
  pixelPositionForScreenPosition : Point -> Pixel
}.

(** The editor together with its view ([atom.views.getView(editor)]). *)
Record TextEditor := mkTextEditor {
  component : option TextComponent;
  getDefaultCharWidth : Z;
  bufferPositionForScreenPosition : Point -> Point;
  getCursorScreenPosition : Point;
  scopeName : string        (* [editor.getGrammar().scopeName] *)
}.

(** A marker of the editor's marker layer ([editor.markBufferRange]); the
    two decorations of [renderDatatip] live and die with it. *)
Record Marker := mkMarker { marker_id : nat; marker_range : Range }.

(** A promise once it has settled. *)
Inductive Settled (A : Type) : Type :=
| Fulfilled (a : A)
| Rejected.
Arguments Fulfilled {A} a.
Arguments Rejected {A}.

(** [Promise.all]: rejected as soon as one of the promises is. *)
Fixpoint promiseAll {A} (l : list (Settled A)) : Settled (list A) :=
  match l with
  | [] => Fulfilled []
  | Rejected :: _ => Rejected
  | Fulfilled a :: l' =>
      match promiseAll l' with
      | Fulfilled r => Fulfilled (a :: r)
      | Rejected => Rejected
      end
  end.

(** The order in which concurrent promises settle is the host's choice.
    A schedule is a list of numbers: each one picks, modulo the number of
    promises still pending, the next one to settle. *)
Fixpoint take_out {A} (k : nat) (l : list A) {struct l} : option (A * list A) :=
  match l with
  | [] => None
  | x :: l' =>
      match k with
      | O => Some (x, l')
      | S k' =>
          match take_out k' l' with
          | Some (y, r) => Some (y, x :: r)
          | None => None
          end
      end
  end.

Fixpoint settleOrder {A} (n : nat) (sched : list nat) (l : list A) : list A :=
  match n with
  | O => []
  | S n' =>
      match take_out (Nat.modulo (hd O sched) (length l)) l with
      | Some (x, rest) => x :: settleOrder n' (tl sched) rest
      | None => []
      end
  end.

Definition completionOrder {A} (sched : list nat) (l : list A) : list A :=
  settleOrder (length l) sched l.

End Host.

(** ** Providers, the position resolver and the fetch orchestrator *)

Module Orchestrator.
Import Geometry Host.

(** A datatip as a provider returns it. [component] is the React class to
    show, named by a number; [pinnable] may be left out. *)
Record Datatip := mkDatatip {
  dt_component : nat;
  range : Range;
  pinnable : option bool
}.

(** A provider. [datatip] is what its promise settles to for an editor
    and a position; a provider that throws is a rejected promise. *)
Record DatatipProvider := mkProvider {
  providerName : option string;
  inclusionPriority : Z;
  validForScope : string -> bool;
  datatip : TextEditor -> Point -> Settled (option Datatip)
}.

Definition getProviderName (provider : DatatipProvider) : string :=
  match providerName provider with
  | None => "unknown"%string
  | Some name => name
  end.

(** [Array.prototype.sort] with the comparator [a.priority - b.priority],
    as a stable insertion sort. *)
Fixpoint insertByPriority (p : DatatipProvider) (l : list DatatipProvider)
  : list DatatipProvider :=
  match l with
  | [] => [p]
  | q :: l' =>
      if inclusionPriority p <=? inclusionPriority q
      then p :: q :: l'
      else q :: insertByPriority p l'
  end.

Definition sortByPriority (l : list DatatipProvider) : list DatatipProvider :=
  fold_right insertByPriority [] l.

Definition filterProvidersByScopeName
    (providers : list DatatipProvider) (scope : string)
  : list DatatipProvider :=
  sortByPriority
    (List.filter
       (fun provider =>
          (0 <? inclusionPriority provider) && validForScope provider scope)
       providers).

(** The position resolver. *)
Definition getBufferPosition (editor : TextEditor) (event : option MouseEvent)
  : option Point :=
  match event with
  | None => None
  | Some event =>
      match component editor with
      | None => None
      | Some text =>
          let screenPosition := screenPositionForMouseEvent text event in
          let pixelPosition := pixelPositionForMouseEvent text event in
          let pixelPositionFromScreenPosition :=
            pixelPositionForScreenPosition text screenPosition in
          let horizontalDistance :=
            px_left pixelPosition - px_left pixelPositionFromScreenPosition in
          if (px_left pixelPosition <? 0)
             || (getDefaultCharWidth editor <? horizontalDistance)
          then None
          else Some (bufferPositionForScreenPosition editor screenPosition)
      end
  end.

Inductive DatatipAction := PIN.

(** One [<DatatipComponent>] of the rendered tooltip. [rp_datatip] is the
    datatip its [onActionClick] closes over and whose component it
    wraps. *)
Record RenderedProvider := mkRendered {
  rp_key : string;
  rp_action : option DatatipAction;
  rp_actionTitle : option string;
  rp_datatip : Datatip
}.

(** What [fetchDatatip] resolves to when it is not null. [cr_range] is the
    variable [combinedRange], which starts as null. *)
Record CombinedResult := mkCombined {
  cr_range : option Range;
  renderedProviders : list RenderedProvider
}.

(** The promise of [fetchDatatip] once settled. *)
Definition FetchOutcome := Settled (option CombinedResult).

(** The assignment to [combinedRange] in a provider's callback. *)
Definition combine (combinedRange : option Range) (d : Datatip) : option Range :=
  match combinedRange with
  | None => Some (range d)
  | Some c => Some (union c (range d))
  end.

(** What a provider's callback returns. Datatips are pinnable unless the
    provider says [pinnable: false]. *)
Definition renderProvider (provider : DatatipProvider) (answer : option Datatip)
  : option RenderedProvider :=
  match answer with
  | None => None
  | Some d =>
      let name := getProviderName provider in
      match pinnable d with
      | Some false => Some (mkRendered name None None d)
      | _ => Some (mkRendered name (Some PIN) (Some "Pin this Datatip"%string) d)
      end
  end.

(** Modelled from the spec: [arrayCompact] of commons-node/collection is
    not in the sources; it discards the providers that returned no
    content. *)
Definition arrayCompact {A} (l : list (option A)) : list A := omap id l.

(** [fetchDatatip]. The callbacks of the providers run in the order in
    which the providers' promises settle, which [sched] fixes, and each
    folds its range into [combinedRange]; [Promise.all] hands their
    results back in the order of the providers. The calls to the
    analytics are left out. *)
Definition fetchDatatip
    (editor : TextEditor) (position : Point)
    (allProviders : list DatatipProvider) (sched : list nat)
  : FetchOutcome :=
  let providers := filterProvidersByScopeName allProviders (scopeName editor) in
  match providers with
  | [] => Fulfilled None
  | _ =>
      match promiseAll (map (fun p => datatip p editor position) providers) with
      | Rejected => Rejected
      | Fulfilled answers =>
          let combinedRange :=
            fold_left combine (arrayCompact (completionOrder sched answers)) None in
          match arrayCompact (zip_with renderProvider providers answers) with
          | [] => Fulfilled None
          | rendered => Fulfilled (Some (mkCombined combinedRange rendered))
          end
      end
  end.

End Orchestrator.

(** ** The state machine of one editor: [DatatipManagerForEditor] *)

Module ForEditor.
Import Geometry Host Orchestrator.

(** [DatatipState]. *)
Inductive State := HIDDEN | FETCHING | VISIBLE.

Definition state_eqb (a b : State) : bool :=
  match a, b with
  | HIDDEN, HIDDEN | FETCHING, FETCHING | VISIBLE, VISIBLE => true
  | _, _ => false
  end.

(** A node of the document: the manager's overlay element or another. *)
Inductive Node := DatatipElement | OtherNode (n : nat).

Record KeyboardEvent := mkKey {
  altKey : bool; ctrlKey : bool; metaKey : bool; shiftKey : bool
}.

Inductive Display := DisplayUnset | DisplayBlock | DisplayNone.

(** [_datatipElement]: its [style.display] and what React has rendered
    into it. *)
Record Element := mkElement {
  style_display : Display;
  rendered : option (list RenderedProvider)
}.

(** Modelled from the spec: the class [PinnedDatatip] is not in the
    sources; a pinned tooltip keeps its content and the document that
    owns it, and has a decoration of its own. *)
Record PinnedDatatip := mkPinned {
  pd_datatip : Datatip;
  pd_editor : positive
}.

(** The fields of [DatatipManagerForEditor]. [_datatipProviders] is a
    reference to the array of the registry and is kept in the world.
    [_startFetchingDebounce] tells whether the timer of the current
    debounced function is pending; [_subscriptions] whether the
    subscriptions are still live. *)
Record Manager := mkManager {
  _blacklistedPosition : option Point;
  _datatipElement : Element;
  _datatipState : State;
  _editor : positive;
  _insideDatatip : bool;
  _lastHiddenTime : Z;
  _lastMoveEvent : option MouseEvent;
  _marker : option Marker;
  _pinnedDatatips : list PinnedDatatip;
  _range : option Range;
  _startFetchingDebounce : bool;
  _subscriptions : bool
}.

(** Where the closure [getPosition] given to [_startFetching] looks: the
    last pointer event, or the text cursor. *)
Inductive PositionSource := FromPointer | FromCursor.

(** A call of [fetchDatatip] whose promise has not settled: the closure
    [getPosition] of the caller, and the arguments of the call. The
    providers are filtered and asked when the call is made. *)
Record Fetch := mkFetch {
  f_source : PositionSource;
  f_editor : TextEditor;
  f_position : Point;
  f_providers : list DatatipProvider
}.

(** The manager and what it shares with its surroundings: the array of
    providers, the editor, the clock [window.performance.now()] in
    milliseconds, the markers it has created in the editor and that are
    not destroyed, the timers of debounced functions that were replaced
    while pending, and the fetches in flight. *)
Record World := mkWorld {
  manager : Manager;
  datatipProviders : list DatatipProvider;
  editor : TextEditor;
  now : Z;
  markers : list Marker;
  nextMarker : nat;
  strayTimers : nat;
  inflight : list Fetch
}.

(** *** Assignments *)

Definition set_blacklistedPosition v (m : Manager) : Manager :=
  mkManager v (_datatipElement m) (_datatipState m) (_editor m)
    (_insideDatatip m) (_lastHiddenTime m) (_lastMoveEvent m) (_marker m)
    (_pinnedDatatips m) (_range m) (_startFetchingDebounce m) (_subscriptions m).
Definition set_datatipElement v (m : Manager) : Manager :=
  mkManager (_blacklistedPosition m) v (_datatipState m) (_editor m)
    (_insideDatatip m) (_lastHiddenTime m) (_lastMoveEvent m) (_marker m)
    (_pinnedDatatips m) (_range m) (_startFetchingDebounce m) (_subscriptions m).
Definition set_datatipState v (m : Manager) : Manager :=
  mkManager (_blacklistedPosition m) (_datatipElement m) v (_editor m)
    (_insideDatatip m) (_lastHiddenTime m) (_lastMoveEvent m) (_marker m)
    (_pinnedDatatips m) (_range m) (_startFetchingDebounce m) (_subscriptions m).
Definition set_insideDatatip v (m : Manager) : Manager :=
  mkManager (_blacklistedPosition m) (_datatipElement m) (_datatipState m)
    (_editor m) v (_lastHiddenTime m) (_lastMoveEvent m) (_marker m)
    (_pinnedDatatips m) (_range m) (_startFetchingDebounce m) (_subscriptions m).
Definition set_lastHiddenTime v (m : Manager) : Manager :=
  mkManager (_blacklistedPosition m) (_datatipElement m) (_datatipState m)
    (_editor m) (_insideDatatip m) v (_lastMoveEvent m) (_marker m)
    (_pinnedDatatips m) (_range m) (_startFetchingDebounce m) (_subscriptions m).
Definition set_lastMoveEvent v (m : Manager) : Manager :=
  mkManager (_blacklistedPosition m) (_datatipElement m) (_datatipState m)
    (_editor m) (_insideDatatip m) (_lastHiddenTime m) v (_marker m)
    (_pinnedDatatips m) (_range m) (_startFetchingDebounce m) (_subscriptions m).
Definition set_marker v (m : Manager) : Manager :=
  mkManager (_blacklistedPosition m) (_datatipElement m) (_datatipState m)
    (_editor m) (_insideDatatip m) (_lastHiddenTime m) (_lastMoveEvent m) v
    (_pinnedDatatips m) (_range m) (_startFetchingDebounce m) (_subscriptions m).
Definition set_pinnedDatatips v (m : Manager) : Manager :=
  mkManager (_blacklistedPosition m) (_datatipElement m) (_datatipState m)
    (_editor m) (_insideDatatip m) (_lastHiddenTime m) (_lastMoveEvent m)
    (_marker m) v (_range m) (_startFetchingDebounce m) (_subscriptions m).
Definition set_range v (m : Manager) : Manager :=
  mkManager (_blacklistedPosition m) (_datatipElement m) (_datatipState m)
    (_editor m) (_insideDatatip m) (_lastHiddenTime m) (_lastMoveEvent m)
    (_marker m) (_pinnedDatatips m) v (_startFetchingDebounce m) (_subscriptions m).
Definition set_startFetchingDebounce v (m : Manager) : Manager :=
  mkManager (_blacklistedPosition m) (_datatipElement m) (_datatipState m)
    (_editor m) (_insideDatatip m) (_lastHiddenTime m) (_lastMoveEvent m)
    (_marker m) (_pinnedDatatips m) (_range m) v (_subscriptions m).
Definition set_subscriptions v (m : Manager) : Manager :=
  mkManager (_blacklistedPosition m) (_datatipElement m) (_datatipState m)
    (_editor m) (_insideDatatip m) (_lastHiddenTime m) (_lastMoveEvent m)
    (_marker m) (_pinnedDatatips m) (_range m) (_startFetchingDebounce m) v.

(** [this.field = v]. *)
Definition this (f : Manager -> Manager) (w : World) : World :=
  mkWorld (f (manager w)) (datatipProviders w) (editor w) (now w)
    (markers w) (nextMarker w) (strayTimers w) (inflight w).

Definition set_datatipProviders v (w : World) : World :=
  mkWorld (manager w) v (editor w) (now w)
    (markers w) (nextMarker w) (strayTimers w) (inflight w).
Definition set_editor v (w : World) : World :=
  mkWorld (manager w) (datatipProviders w) v (now w)
    (markers w) (nextMarker w) (strayTimers w) (inflight w).
Definition set_now v (w : World) : World :=
  mkWorld (manager w) (datatipProviders w) (editor w) v
    (markers w) (nextMarker w) (strayTimers w) (inflight w).
Definition set_markers v n (w : World) : World :=
  mkWorld (manager w) (datatipProviders w) (editor w) (now w)
    v n (strayTimers w) (inflight w).
Definition set_strayTimers v (w : World) : World :=
  mkWorld (manager w) (datatipProviders w) (editor w) (now w)
    (markers w) (nextMarker w) v (inflight w).
Definition set_inflight v (w : World) : World :=
  mkWorld (manager w) (datatipProviders w) (editor w) (now w)
    (markers w) (nextMarker w) (strayTimers w) v.

Definition state (w : World) : State := _datatipState (manager w).

(** *** The methods *)

(** [marker.destroy()]: the marker leaves the editor. *)
Definition destroyMarker (marker : Marker) (w : World) : World :=
  set_markers
    (List.filter (fun m => negb (Nat.eqb (marker_id m) (marker_id marker)))
                 (markers w))
    (nextMarker w) w.

(** [renderDatatip]: a new marker over the range, the providers rendered
    into the element, the element shown and attached to the marker. *)
Definition renderDatatip
    (r : Range) (renderedProviders : list RenderedProvider) (w : World)
  : Marker * World :=
  let marker := mkMarker (nextMarker w) r in
  let w := set_markers (markers w ++ [marker]) (S (nextMarker w)) w in
  let w := this (set_datatipElement
                   (mkElement DisplayBlock (Some renderedProviders))) w in
  (marker, w).

Definition _hideDatatip (w : World) : World :=
  let w := this (set_lastHiddenTime (now w)) w in
  let w := match _marker (manager w) with
           | Some marker => this (set_marker None) (destroyMarker marker w)
           | None => w
           end in
  let w := this (set_range None) w in
  this (set_datatipElement (mkElement DisplayNone None)) w.

Definition _setState (newState : State) (w : World) : World :=
  let oldState := state w in
  let w := this (set_datatipState newState) w in
  let w := if state_eqb newState HIDDEN
           then this (set_blacklistedPosition None) w else w in
  if state_eqb oldState VISIBLE && state_eqb newState HIDDEN
  then _hideDatatip w
  else w.

(** The closure [getPosition], called in the world of the moment. *)
Definition getPosition (source : PositionSource) (w : World) : option Point :=
  match source with
  | FromPointer => getBufferPosition (editor w) (_lastMoveEvent (manager w))
  | FromCursor => Some (getCursorScreenPosition (editor w))
  end.

(** [_startFetching] up to its [await]: the call of [fetchDatatip] is
    made and its promise is pending. *)
Definition _startFetching (source : PositionSource) (w : World) : World :=
  if negb (state_eqb (state w) HIDDEN) then w
  else
    match getPosition source w with
    | None => w
    | Some position =>
        let w := _setState FETCHING w in
        set_inflight
          (inflight w ++
             [mkFetch source (editor w) position (datatipProviders w)])
          w
    end.

(** [_startFetching] from its [await] on, once [fetchDatatip] has
    resolved to [data]. *)
Definition _startFetching_resume
    (source : PositionSource) (data : option CombinedResult) (w : World)
  : World :=
  match data with
  | None => _setState HIDDEN w
  | Some data =>
      let w := if negb (state_eqb (state w) FETCHING)
               then _setState HIDDEN w else w in
      let blacklisted :=
        match _blacklistedPosition (manager w), cr_range data with
        | Some p, Some r => containsPoint r p
        | _, _ => false
        end in
      if blacklisted then _setState HIDDEN w
      else
        match getPosition source w, cr_range data with
        | Some currentPosition, Some r =>
            if containsPoint r currentPosition
            then
              let w := _setState VISIBLE w in
              let w := this (set_range (Some r)) w in
              let (marker, w) := renderDatatip r (renderedProviders data) w in
              this (set_marker (Some marker)) w
            else _setState HIDDEN w
        | _, _ => _setState HIDDEN w
        end
  end.

Definition _hideOrCancel (w : World) : World :=
  match state w with
  | HIDDEN | FETCHING =>
      this (set_blacklistedPosition
              (getBufferPosition (editor w) (_lastMoveEvent (manager w)))) w
  | VISIBLE => _setState HIDDEN w
  end.

Definition _hideIfOutside (w : World) : World :=
  if negb (state_eqb (state w) VISIBLE) then w
  else if _insideDatatip (manager w) then w
  else
    let currentPosition :=
      getBufferPosition (editor w) (_lastMoveEvent (manager w)) in
    match currentPosition, _range (manager w) with
    | Some p, Some r =>
        if containsPoint r p then w else _setState HIDDEN w
    | _, _ => _setState HIDDEN w
    end.

(** [createPinnedDataTip] of the editor's manager; [component] is the
    number of the React class. The manager itself does not change. *)
Definition createPinnedDataTip
    (component : nat) (r : Range) (pinnable : option bool)
    (editorId : positive) (m : Manager)
  : PinnedDatatip :=
  mkPinned (mkDatatip component r pinnable) editorId.

Definition _handlePinClicked (editorId : positive) (d : Datatip) (w : World)
  : World :=
  let w := _setState HIDDEN w in
  this (set_pinnedDatatips
          (_pinnedDatatips (manager w) ++ [mkPinned d editorId])) w.

(** [_toggleDatatip]; [active] is [atom.workspace.getActiveTextEditor()]. *)
Definition _toggleDatatip (active : option positive) (w : World) : World :=
  if negb (bool_decide (active = Some (_editor (manager w)))) then w
  else if state_eqb (state w) HIDDEN
          && (100 <? now w - _lastHiddenTime (manager w))
  then _startFetching FromCursor w
  else w.

(** Modelled from the spec: [debounce] of commons-node/debounce is not in
    the sources. Calling the debounced function (re)starts its one
    timer, and the function given to [debounce] runs when the timer
    fires. [_setStartFetchingDebounce] makes a new debounced function;
    a timer of the old one that is pending stays pending. *)
Definition _setStartFetchingDebounce (w : World) : World :=
  let w := if _startFetchingDebounce (manager w)
           then set_strayTimers (S (strayTimers w)) w else w in
  this (set_startFetchingDebounce false) w.

Definition call_startFetchingDebounce (w : World) : World :=
  this (set_startFetchingDebounce true) w.

(** [dispose]. The element's removal from the document is not modelled:
    nothing in the manager looks at it. *)
Definition dispose (w : World) : World :=
  let w := _setState HIDDEN w in
  this (set_subscriptions false) w.

(** The walk up from [e.target] of the mousedown handler. *)
Definition insideDatatipElement (path : list Node) : bool :=
  existsb (fun node => match node with DatatipElement => true | _ => false end)
          path.

Definition hasModifier (e : KeyboardEvent) : bool :=
  altKey e || ctrlKey e || metaKey e || shiftKey e.

(** [arrayRemove]/[Set::delete] of the element at a place. *)
Fixpoint removeAt {A} (i : nat) (l : list A) : list A :=
  match l, i with
  | [], _ => []
  | _ :: l', O => l'
  | x :: l', S i' => x :: removeAt i' l'
  end.

(** *** Events

    What can happen to a manager: the callbacks it has subscribed, the
    timers and promises it has started, the clicks on what it has
    rendered, its disposal, and the changes of its surroundings. *)
Inductive Event :=
| ConfigObserved
| MouseMove (e : MouseEvent)
| MouseDown (path : list Node)      (* [e.target] and its ancestors *)
| KeyDown (e : KeyboardEvent)
| MouseEnter
| MouseLeave
| ScrollTopChanged
| ToggleCommand (active : option positive)
| DebounceFired
| StrayDebounceFired
| FetchSettled (k : nat) (sched : list nat)
| PinClicked (i : nat)
| PinnedDisposed (i : nat)
| Dispose
| EditorChanged (ed : TextEditor)
| ProviderAdded (p : DatatipProvider)
| ProviderRemoved (i : nat)
| TimePassed (dt : N).

(** The events delivered through [_subscriptions]. *)
Definition subscribed (ev : Event) : bool :=
  match ev with
  | ConfigObserved | MouseMove _ | MouseDown _ | KeyDown _ | MouseEnter
  | MouseLeave | ScrollTopChanged | ToggleCommand _ => true
  | _ => false
  end.

(** The subscriptions of the constructor. *)
Definition deliver (ev : Event) (w : World) : World :=
  match ev with
  | ConfigObserved => _setStartFetchingDebounce w
  | MouseMove e =>
      let w := this (set_lastMoveEvent (Some e)) w in
      if state_eqb (state w) HIDDEN
      then call_startFetchingDebounce w
      else _hideIfOutside w
  | MouseDown path =>
      if insideDatatipElement path then w else _hideOrCancel w
  | KeyDown e =>
      if hasModifier e then w else _hideOrCancel w
  | MouseEnter => _hideIfOutside (this (set_insideDatatip true) w)
  | MouseLeave => _hideIfOutside (this (set_insideDatatip false) w)
  | ScrollTopChanged =>
      let w := this (set_lastMoveEvent None) w in
      if state_eqb (state w) VISIBLE then _setState HIDDEN w else w
  | ToggleCommand active => _toggleDatatip active w
  | _ => w
  end.

(** The promise of the [k]-th fetch in flight settles. *)
Definition settle (k : nat) (sched : list nat) (w : World) : World :=
  match inflight w !! k with
  | None => w
  | Some f =>
      let w := set_inflight (removeAt k (inflight w)) w in
      match fetchDatatip (f_editor f) (f_position f) (f_providers f) sched with
      | Rejected => w           (* the [await] throws; nothing catches it *)
      | Fulfilled data => _startFetching_resume (f_source f) data w
      end
  end.

(** A click on the pin of the [i]-th provider of the rendered tooltip. *)
Definition pinClick (i : nat) (w : World) : World :=
  match rendered (_datatipElement (manager w)) with
  | None => w
  | Some items =>
      match items !! i with
      | Some item =>
          match rp_action item with
          | Some PIN =>
              _handlePinClicked (_editor (manager w)) (rp_datatip item) w
          | None => w
          end
      | None => w
      end
  end.

Definition step (ev : Event) (w : World) : World :=
  if subscribed ev then
    if _subscriptions (manager w) then deliver ev w else w
  else
    match ev with
    | DebounceFired =>
        if _startFetchingDebounce (manager w)
        then _startFetching FromPointer
               (this (set_startFetchingDebounce false) w)
        else w
    | StrayDebounceFired =>
        match strayTimers w with
        | O => w
        | S n => _startFetching FromPointer (set_strayTimers n w)
        end
    | FetchSettled k sched => settle k sched w
    | PinClicked i => pinClick i w
    | PinnedDisposed i =>
        this (set_pinnedDatatips (removeAt i (_pinnedDatatips (manager w)))) w
    | Dispose => dispose w
    | EditorChanged ed => set_editor ed w
    | ProviderAdded p => set_datatipProviders (datatipProviders w ++ [p]) w
    | ProviderRemoved i =>
        set_datatipProviders (removeAt i (datatipProviders w)) w
    | TimePassed dt => set_now (now w + Z.of_N dt) w
    | _ => w
    end.

Definition run (evs : list Event) (w : World) : World :=
  fold_left (fun w ev => step ev w) evs w.

(** While the subscriptions are live, at most one fetch is in flight, and
    only in the state [FETCHING]; the element shows something only in the
    state [VISIBLE]. *)
Definition live_invariant (w : World) : Prop :=
  (state w = FETCHING \/ inflight w = []) /\
  (length (inflight w) <= 1)%nat /\
  (state w <> VISIBLE -> rendered (_datatipElement (manager w)) = None).

(** Once they are disposed, no position is suppressed any more. *)
Definition fetch_invariant (w : World) : Prop :=
  if _subscriptions (manager w)
  then live_invariant w
  else _blacklistedPosition (manager w) = None.

(** The markers of the manager in the editor are its [_marker], if any,
    and it has one exactly when the state is [VISIBLE]. *)
Definition marker_invariant (w : World) : Prop :=
  match _marker (manager w) with
  | Some marker => state w = VISIBLE /\ markers w = [marker]
  | None => state w <> VISIBLE /\ markers w = []
  end.

(** [new DatatipManagerForEditor(editor, datatipProviders)] at some time
    of the clock. The constructor subscribes to the configuration, which
    calls [_setStartFetchingDebounce] at once. *)
Definition create
    (editorId : positive) (ed : TextEditor)
    (providers : list DatatipProvider) (clock : Z)
  : World :=
  mkWorld
    (mkManager None (mkElement DisplayUnset None) HIDDEN editorId false 0
               None None [] None false true)
    providers ed clock [] O O [].

End ForEditor.

(** ** The registry: [DatatipManager] *)

Module Registry.
Import Geometry Host Orchestrator.

(** A call that returns or throws. *)
Inductive Result (A : Type) : Type :=
| Returned (a : A)
| Threw (message : string).
Arguments Returned {A} a.
Arguments Threw {A} message.

(** The fields of [DatatipManager]: the array of providers every manager
    shares, and the manager of each open editor. Each manager lives as
    [ForEditor] tells; the registry only keeps track of them. *)
Record DatatipManager := mkRegistry {
  _datatipProviders : list DatatipProvider;
  _editorManagers : gmap positive ForEditor.Manager
}.

(** The constructor, before any editor is observed. *)
Definition empty : DatatipManager := mkRegistry [] ∅.

(** The callback of [atom.workspace.observeTextEditors]. *)
Definition observeTextEditor
    (editor : positive) (ed : TextEditor) (clock : Z) (reg : DatatipManager)
  : DatatipManager :=
  let manager :=
    ForEditor.manager
      (ForEditor.create editor ed (_datatipProviders reg) clock) in
  mkRegistry (_datatipProviders reg)
             (<[editor := manager]> (_editorManagers reg)).

(** The closure [dispose] registered with [editor.onDidDestroy]; the
    manager's own [dispose] is the event [ForEditor.Dispose]. *)
Definition editorDestroyed (editor : positive) (reg : DatatipManager)
  : DatatipManager :=
  mkRegistry (_datatipProviders reg) (delete editor (_editorManagers reg)).

Definition addProvider (provider : DatatipProvider) (reg : DatatipManager)
  : DatatipManager :=
  mkRegistry (_datatipProviders reg ++ [provider]) (_editorManagers reg).

(** [removeProvider]; the provider is named by its place in the array. *)
Definition removeProvider (i : nat) (reg : DatatipManager) : DatatipManager :=
  mkRegistry (ForEditor.removeAt i (_datatipProviders reg))
             (_editorManagers reg).

Definition noManagerMessage : string :=
  ("Trying to create a pinned data tip on an editor that has " ++
   "no datatip manager")%string.

(** [createPinnedDataTip]: nothing of the registry is assigned. *)
Definition createPinnedDataTip
    (component : nat) (r : Range) (pinnable : option bool)
    (editor : positive) (reg : DatatipManager)
  : Result ForEditor.PinnedDatatip :=
  match _editorManagers reg !! editor with
  | None => Threw noManagerMessage
  | Some manager =>
      Returned
        (ForEditor.createPinnedDataTip component r pinnable editor manager)
  end.

Definition dispose (reg : DatatipManager) : DatatipManager :=
  mkRegistry (_datatipProviders reg) ∅.

End Registry.

(** ** What a shown tooltip consists of *)

Module Shown.
Import Geometry Host Orchestrator ForEditor.

(** In the state [VISIBLE] the manager has its marker, [_range] is the
    range of that marker and the element is displayed with the rendered
    providers; in the other states there is no [_range], nothing is
    rendered and the element is not displayed. *)
Definition shown_invariant (w : World) : Prop :=
  match state w with
  | VISIBLE =>
      exists marker items,
        _marker (manager w) = Some marker /\
        _range (manager w) = Some (marker_range marker) /\
        _datatipElement (manager w) = mkElement DisplayBlock (Some items)
  | _ =>
      _range (manager w) = None /\
      rendered (_datatipElement (manager w)) = None /\
      style_display (_datatipElement (manager w)) <> DisplayBlock
  end.

End Shown.

(** ** The diagnostics package: its commands

    [main.js] of nuclide-diagnostics-ui: the keyboard shortcuts that walk
    through the diagnostics and their traces, and the command that opens
    all files with errors. *)

Module Diagnostics.
Import Geometry.

(** [scope]: ['file'] or ['project']. *)
Inductive Scope := FileScope | ProjectScope.

Definition isFile (s : Scope) : bool :=
  match s with FileScope => true | ProjectScope => false end.

(** A [Trace]: its [filePath] and [range] may be missing. *)
Record Trace := mkTrace {
  trace_filePath : option string;
  trace_range : option Range
}.

(** A diagnostic message, of a file or of the project: [filePath], [range]
    and [trace] may be missing. *)
Record Message := mkMessage {
  scope : Scope;
  filePath : option string;
  range : option Range;
  trace : option (list Trace)
}.

(** A call [goToLocation(file, line, column)]; the last two may be left
    out. *)
Record Location := mkLocation {
  loc_file : option string;
  loc_line : option Z;
  loc_column : option Z
}.

(** The fields of [KeyboardShortcuts]. *)
Record KeyboardShortcuts := mkShortcuts {
  _diagnostics : list Message;
  _index : option Z;
  _traceIndex : option Z
}.

(** A method returns or throws. *)
Inductive Outcome (A : Type) : Type :=
| Returned (a : A)
| Threw.
Arguments Returned {A} a.
Arguments Threw {A}.

(** A method: from the fields to its outcome, the fields it leaves and the
    calls of [goToLocation] it has made. *)
Definition M (A : Type) : Type :=
  KeyboardShortcuts -> Outcome A * KeyboardShortcuts * list Location.

Definition ret {A} (a : A) : M A := fun ks => (Returned a, ks, []).

Definition bind {A B} (m : M A) (f : A -> M B) : M B :=
  fun ks =>
    match m ks with
    | (Returned a, ks1, calls1) =>
        match f a ks1 with
        | (out, ks2, calls2) => (out, ks2, calls1 ++ calls2)
        end
    | (Threw, ks1, calls1) => (Threw, ks1, calls1)
    end.

Notation "'let*' x ':=' m 'in' k" := (bind m (fun x => k))
  (at level 10, x name, m at level 100, k at level 200).

Definition throw {A} : M A := fun ks => (Threw, ks, []).

(** [invariant(condition)]. *)
Definition invariant (condition : bool) : M unit :=
  if condition then ret tt else throw.

Definition get {A} (field : KeyboardShortcuts -> A) : M A :=
  fun ks => (Returned (field ks), ks, []).

Definition set_index (v : option Z) : M unit :=
  fun ks => (Returned tt, mkShortcuts (_diagnostics ks) v (_traceIndex ks), []).

Definition set_traceIndex (v : option Z) : M unit :=
  fun ks => (Returned tt, mkShortcuts (_diagnostics ks) (_index ks) v, []).

Definition goToLocation (file : option string) (line column : option Z) : M unit :=
  fun ks => (Returned tt, ks, [mkLocation file line column]).

(** [array[i]]: undefined outside of the array. *)
Definition at_index {A} (array : list A) (i : Z) : option A :=
  if i <? 0 then None else nth_error array (Z.to_nat i).

(** Reading a property of [array[i]] throws when it is undefined. *)
Definition element {A} (array : list A) (i : Z) : M A :=
  match at_index array i with
  | Some x => ret x
  | None => throw
  end.

Definition isSome {A} (o : option A) : bool :=
  match o with Some _ => true | None => false end.

Definition gotoCurrentIndex : M unit :=
  let* index := get _index in
  let* traceIndex := get _traceIndex in
  let* _ := invariant (isSome index) in
  let* _ := invariant (negb (isSome traceIndex)) in
  match index with
  | None => throw
  | Some index =>
      let* diagnostics := get _diagnostics in
      let* diagnostic := element diagnostics index in
      match range diagnostic with
      | None => goToLocation (filePath diagnostic) None None
      | Some r =>
          goToLocation (filePath diagnostic)
                       (Some (row (range_start r)))
                       (Some (column (range_start r)))
      end
  end.

Definition setIndex (index : Z) : M unit :=
  let* _ := set_traceIndex None in
  let* diagnostics := get _diagnostics in
  if Nat.eqb (length diagnostics) 0
  then set_index None
  else
    let* _ :=
      set_index
        (Some (Z.max 0 (Z.min index (Z.of_nat (length diagnostics) - 1)))) in
    gotoCurrentIndex.

Definition currentTraces : M (option (list Trace)) :=
  let* index := get _index in
  match index with
  | None => ret None
  | Some index =>
      let* diagnostics := get _diagnostics in
      let* diagnostic := element diagnostics index in
      ret (trace diagnostic)
  end.

(** A trace one can go to. *)
Definition navigable (t : Trace) : bool :=
  isSome (trace_filePath t) && isSome (trace_range t).

Definition trySetCurrentTrace (traces : list Trace) (traceIndex : Z) : M bool :=
  let* t := element traces traceIndex in
  match trace_filePath t, trace_range t with
  | Some file, Some r =>
      let* _ := set_traceIndex (Some traceIndex) in
      let* _ := goToLocation (Some file) (Some (row (range_start r)))
                             (Some (column (range_start r))) in
      ret true
  | _, _ => ret false
  end.

(** The loop of [nextTrace], [n] being the number of candidates from
    [candidateTrace] up to the end of the traces. *)
Fixpoint nextTraceLoop (traces : list Trace) (candidateTrace : Z) (n : nat)
  : M unit :=
  match n with
  | O => let* _ := set_traceIndex None in gotoCurrentIndex
  | S n' =>
      let* found := trySetCurrentTrace traces candidateTrace in
      if found then ret tt
      else nextTraceLoop traces (candidateTrace + 1) n'
  end.

Definition nextTrace : M unit :=
  let* traces := currentTraces in
  match traces with
  | None => ret tt
  | Some traces =>
      let* traceIndex := get _traceIndex in
      let candidateTrace :=
        match traceIndex with None => 0 | Some t => t + 1 end in
      nextTraceLoop traces candidateTrace
        (Z.to_nat (Z.of_nat (length traces) - candidateTrace))
  end.

(** The loop of [previousTrace], [n] being the number of candidates from
    [candidateTrace] down to 0. *)
Fixpoint previousTraceLoop (traces : list Trace) (candidateTrace : Z) (n : nat)
  : M unit :=
  match n with
  | O => let* _ := set_traceIndex None in gotoCurrentIndex
  | S n' =>
      let* found := trySetCurrentTrace traces candidateTrace in
      if found then ret tt
      else previousTraceLoop traces (candidateTrace - 1) n'
  end.

Definition previousTrace : M unit :=
  let* traces := currentTraces in
  match traces with
  | None => ret tt
  | Some traces =>
      let* traceIndex := get _traceIndex in
      let candidateTrace :=
        match traceIndex with
        | None => Z.of_nat (length traces) - 1
        | Some t => t - 1
        end in
      previousTraceLoop traces candidateTrace (Z.to_nat (candidateTrace + 1))
  end.

(** The subscription to [allMessageUpdates] and the six commands of the
    constructor. *)
Inductive Command :=
| MessagesUpdated (diagnostics : list Message)
| GoToFirst
| GoToLast
| GoToNext
| GoToPrevious
| GoToNextTrace
| GoToPreviousTrace.

Definition first : M unit := setIndex 0.

Definition last : M unit :=
  let* diagnostics := get _diagnostics in
  setIndex (Z.of_nat (length diagnostics) - 1).

Definition handle (c : Command) : M unit :=
  match c with
  | MessagesUpdated diagnostics =>
      fun _ =>
        (Returned tt,
         mkShortcuts (List.filter (fun d => isFile (scope d)) diagnostics)
                     None None,
         [])
  | GoToFirst => first
  | GoToLast => last
  | GoToNext =>
      let* index := get _index in
      match index with
      | None => first
      | Some i => setIndex (i + 1)
      end
  | GoToPrevious =>
      let* index := get _index in
      match index with
      | None => last
      | Some i => setIndex (i - 1)
      end
  | GoToNextTrace => nextTrace
  | GoToPreviousTrace => previousTrace
  end.

(** A command that throws leaves the fields as they are at the throw; the
    next command runs all the same. *)
Definition exec (c : Command) (st : KeyboardShortcuts * list Location * bool)
  : KeyboardShortcuts * list Location * bool :=
  match st with
  | (ks, calls, thrown) =>
      match handle c ks with
      | (Returned _, ks', calls') => (ks', calls ++ calls', thrown)
      | (Threw, ks', calls') => (ks', calls ++ calls', true)
      end
  end.

(** [new KeyboardShortcuts(diagnosticUpdater)], and the commands run from
    there: the fields, the calls of [goToLocation] made and whether a
    command has thrown. *)
Definition created : KeyboardShortcuts := mkShortcuts [] None None.

Definition runCommands (cs : list Command)
  : KeyboardShortcuts * list Location * bool :=
  fold_left (fun st c => exec c st) cs (created, [], false).

Definition MAX_OPEN_ALL_FILES : Z := 20.

(** What [openAllFilesWithErrors] does with the messages it receives: an
    error notification, or calls of [goToLocation]. *)
Inductive OpenAll :=
| Notified (error : string)
| Opened (calls : list Location).

Definition openAllFilesWithErrors (messages : list Message) : OpenAll :=
  if MAX_OPEN_ALL_FILES <? Z.of_nat (length messages)
  then Notified "Diagnostics: Will not open more than 20 files"
  else
    Opened
      (omap
         (fun rowData =>
            match scope rowData, filePath rowData with
            | FileScope, Some uri =>
                let line :=
                  Z.max (match range rowData with
                         | Some r => row (range_start r)
                         | None => 0
                         end) 0 in
                Some (mkLocation (Some uri) (Some line) (Some 0))
            | _, _ => None
            end)
         messages).

(** The index that [setIndex(index)] leaves when there are [len]
    diagnostics. *)
Definition clamp (len index : Z) : Z := Z.max 0 (Z.min index (len - 1)).

(** Where [gotoCurrentIndex] goes for a diagnostic, and where
    [trySetCurrentTrace] goes for a trace. *)
Definition diagnosticLocation (d : Message) : Location :=
  match range d with
  | None => mkLocation (filePath d) None None
  | Some r =>
      mkLocation (filePath d) (Some (row (range_start r)))
                 (Some (column (range_start r)))
  end.

Definition traceLocation (t : Trace) : option Location :=
  match trace_filePath t, trace_range t with
  | Some file, Some r =>
      Some (mkLocation (Some file) (Some (row (range_start r)))
                       (Some (column (range_start r))))
  | _, _ => None
  end.

(** What the walk keeps true: the index, when set, is a place of the
    diagnostics, and the trace index, when set, a trace of that diagnostic
    one can go to; without index there is no trace index. *)
Definition consistent (ks : KeyboardShortcuts) : Prop :=
  match _index ks with
  | None => _traceIndex ks = None
  | Some i =>
      exists d,
        at_index (_diagnostics ks) i = Some d /\
        match _traceIndex ks with
        | None => True
        | Some t =>
            exists traces tr,
              trace d = Some traces /\
              at_index traces t = Some tr /\
              navigable tr = true
        end
  end.

End Diagnostics.

(** ** A small editor and a few providers to run the definitions on *)

Module Examples.
Import Geometry Host Orchestrator ForEditor.

(** Characters are 8 pixels wide and lines 16 pixels high; a line has
    text up to column 40. *)
Definition text : TextComponent :=
  mkTextComponent
    (fun e => mkPoint (clientY e / 16) (Z.min (clientX e / 8) 40))
    (fun e => mkPixel (clientX e) (clientY e))
    (fun p => mkPixel (column p * 8) (row p * 16)).

Definition jsEditor : TextEditor :=
  mkTextEditor (Some text) 8 (fun p => p) (mkPoint 2 2) "source.js".

(** A provider for JavaScript that answers every position alike. *)
Definition provider (name : string) (priority : Z)
    (answer : Settled (option Datatip)) : DatatipProvider :=
  mkProvider (Some name) priority (String.eqb "source.js")
             (fun _ _ => answer).

Definition line (r c1 c2 : Z) : Range :=
  mkRange (mkPoint r c1) (mkPoint r c2).

Definition tipA : Datatip := mkDatatip 1 (line 5 0 3) None.
Definition tipB : Datatip := mkDatatip 2 (line 5 2 10) (Some false).
Definition tipC : Datatip := mkDatatip 3 (line 2 0 8) None.

Definition providerA := provider "A" 1 (Fulfilled (Some tipA)).
Definition providerB := provider "B" 2 (Fulfilled (Some tipB)).
Definition providerC := provider "C" 1 (Fulfilled (Some tipC)).
Definition silent := provider "silent" 3 (Fulfilled None).
Definition disabled := provider "disabled" 0 (Fulfilled (Some tipA)).
Definition python :=
  mkProvider (Some "python"%string) 1 (String.eqb "source.python")
             (fun _ _ => Fulfilled (Some tipA)).

(** The pointer over row 2, column 2 of the text. *)
Definition overText : MouseEvent := mkMouseEvent 20 40.

Definition plainKey : KeyboardEvent := mkKey false false false false.
Definition shiftKeyDown : KeyboardEvent := mkKey false false false true.

(** The manager of editor 1 with the provider [providerC], at time 500. *)
Definition initial : World := create 1%positive jsEditor [providerC] 500.

(** The pointer rests over (2,2), the timer fires, the provider answers
    with the range (2,0)-(2,8): the tooltip is shown. *)
Definition shown : list Event :=
  [MouseMove overText; DebounceFired; FetchSettled 0 []].

End Examples.

(** ** A few diagnostics to run the commands on *)

Module DiagnosticsExamples.
Import Geometry Diagnostics.

Definition at31 : Range := mkRange (mkPoint 3 1) (mkPoint 3 5).
Definition flowRow : Range := mkRange (mkPoint (-1) 0) (mkPoint (-1) 0).

Definition withFile : Trace := mkTrace (Some "a.js"%string) (Some at31).
Definition withoutFile : Trace := mkTrace None (Some at31).

(** A diagnostic of [x.js] with three traces, the middle one with a file;
    a diagnostic of the project; a diagnostic of [y.js] without range. *)
Definition inX : Message :=
  mkMessage FileScope (Some "x.js"%string) (Some at31)
            (Some [withoutFile; withFile; withoutFile]).
Definition ofProject : Message := mkMessage ProjectScope None None None.
Definition inY : Message :=
  mkMessage FileScope (Some "y.js"%string) (Some flowRow) None.

(** The walk after the three messages arrived and the first was gone to. *)
Definition atFirst : KeyboardShortcuts :=
  mkShortcuts [inX; inY] (Some 0) None.

End DiagnosticsExamples.

(** * Properties *)

(** ** The order of points and the union of ranges *)

Module GeometryFacts.
Import Geometry.

Lemma compare_spec a b :
  match compare a b with
  | Lt => row a < row b \/ (row a = row b /\ column a < column b)
  | Eq => a = b
  | Gt => row b < row a \/ (row a = row b /\ column b < column a)
  end.
Proof.
  unfold compare. destruct a as [ra ca], b as [rb cb]; simpl.
  destruct (Z.compare_spec ra rb); destruct (Z.compare_spec ca cb);
    subst; auto; lia.
Qed.

Lemma isLessThanOrEqual_ple a b : isLessThanOrEqual a b = true <-> ple a b.
Proof.
  unfold isLessThanOrEqual, ple. pose proof (compare_spec a b) as H.
  destruct (compare a b); subst; split; intros; try discriminate; try lia.
Qed.

Lemma isGreaterThanOrEqual_ple a b : isGreaterThanOrEqual a b = true <-> ple b a.
Proof.
  unfold isGreaterThanOrEqual, ple. pose proof (compare_spec a b) as H.
  destruct (compare a b); subst; split; intros; try discriminate; try lia.
Qed.

Lemma isLessThan_false a b : isLessThan a b = false <-> ple b a.
Proof.
  unfold isLessThan, ple. pose proof (compare_spec a b) as H.
  destruct (compare a b); subst; split; intros; try discriminate; try lia.
Qed.

Lemma isLessThan_true a b : isLessThan a b = true -> ple a b.
Proof.
  unfold isLessThan, ple. pose proof (compare_spec a b) as H.
  destruct (compare a b); subst; intros; try discriminate; lia.
Qed.

Lemma isGreaterThan_false a b : isGreaterThan a b = false <-> ple a b.
Proof.
  unfold isGreaterThan, ple. pose proof (compare_spec a b) as H.
  destruct (compare a b); subst; split; intros; try discriminate; try lia.
Qed.

Lemma isGreaterThan_true a b : isGreaterThan a b = true -> ple b a.
Proof.
  unfold isGreaterThan, ple. pose proof (compare_spec a b) as H.
  destruct (compare a b); subst; intros; try discriminate; lia.
Qed.

Lemma ple_refl a : ple a a.
Proof. unfold ple. lia. Qed.

Lemma ple_trans a b c : ple a b -> ple b c -> ple a c.
Proof. unfold ple. lia. Qed.

Lemma ple_antisym a b : ple a b -> ple b a -> a = b.
Proof. unfold ple. destruct a, b; simpl. intros. f_equal; lia. Qed.

Lemma ple_total a b : ple a b \/ ple b a.
Proof. unfold ple. lia. Qed.

Lemma newRange_wf a b : ple a b -> newRange a b = mkRange a b.
Proof.
  intros H. unfold newRange.
  apply isLessThanOrEqual_ple in H. now rewrite H.
Qed.

Lemma containsPoint_spec r p :
  containsPoint r p = true <-> ple (range_start r) p /\ ple p (range_end r).
Proof.
  unfold containsPoint. rewrite andb_true_iff.
  now rewrite isGreaterThanOrEqual_ple, isLessThanOrEqual_ple.
Qed.

Lemma covers_refl r : covers r r.
Proof. split; apply ple_refl. Qed.

Lemma covers_trans a b c : covers a b -> covers b c -> covers a c.
Proof. intros [? ?] [? ?]. split; eapply ple_trans; eauto. Qed.

(** The union of two ordered ranges: its ends, and that it is the
    smallest range covering both. *)
Lemma union_ends r s :
  wf_range r -> wf_range s ->
  let u := union r s in
  wf_range u /\ covers u r /\ covers u s /\
  (range_start u = range_start r \/ range_start u = range_start s) /\
  (range_end u = range_end r \/ range_end u = range_end s).
Proof.
  intros Hr Hs. unfold union, wf_range, covers in *.
  destruct (isLessThan (range_start r) (range_start s)) eqn:Hl;
    [ apply isLessThan_true in Hl | apply (proj1 (isLessThan_false _ _)) in Hl ];
    (destruct (isGreaterThan (range_end r) (range_end s)) eqn:Hg;
     [ apply isGreaterThan_true in Hg
     | apply (proj1 (isGreaterThan_false _ _)) in Hg ]).
  all: cbv zeta; rewrite newRange_wf by (unfold ple in *; lia); simpl.
  all: repeat split; try (left; reflexivity); try (right; reflexivity).
  all: unfold ple in *; lia.
Qed.

Lemma union_least r s R :
  wf_range r -> wf_range s -> covers R r -> covers R s -> covers R (union r s).
Proof.
  intros Hr Hs [Hr1 Hr2] [Hs1 Hs2].
  destruct (union_ends r s Hr Hs) as (_ & _ & _ & [E1 | E1] & [E2 | E2]);
    split; rewrite ?E1, ?E2; assumption.
Qed.

End GeometryFacts.

(** ** Settling orders *)

Module HostFacts.
Import Geometry Host.

Lemma take_out_perm {A} (k : nat) (l : list A) x r :
  take_out k l = Some (x, r) ->
  Permutation (x :: r) l /\ length l = S (length r).
Proof.
  revert k x r. induction l as [|a l IH]; intros k x r H; simpl in H.
  - discriminate.
  - destruct k as [|k].
    + inversion H; subst. split; [apply Permutation_refl | reflexivity].
    + destruct (take_out k l) as [[y r']|] eqn:E; [|discriminate].
      inversion H; subst. destruct (IH _ _ _ E) as [P L]. split.
      * eapply Permutation_trans; [apply perm_swap|]. now apply perm_skip.
      * simpl. now rewrite L.
Qed.

Lemma take_out_some {A} (k : nat) (l : list A) :
  (k < length l)%nat -> exists x r, take_out k l = Some (x, r).
Proof.
  revert k. induction l as [|a l IH]; intros k H; simpl in *.
  - lia.
  - destruct k as [|k]; [eauto|].
    destruct (IH k) as (x & r & E); [lia|]. rewrite E. eauto.
Qed.

Lemma settleOrder_perm {A} (n : nat) :
  forall (sched : list nat) (l : list A),
    length l = n -> Permutation (settleOrder n sched l) l.
Proof.
  induction n as [|n IH]; intros sched l Hl.
  - destruct l; [apply Permutation_refl | discriminate].
  - simpl.
    destruct (take_out_some (Nat.modulo (hd O sched) (length l)) l)
      as (x & r & E).
    { apply Nat.mod_upper_bound. lia. }
    rewrite E. destruct (take_out_perm _ _ _ _ E) as [P L].
    eapply Permutation_trans; [|exact P].
    apply perm_skip, IH. lia.
Qed.

(** Whatever the schedule, every promise settles exactly once. *)
Lemma completionOrder_perm {A} (sched : list nat) (l : list A) :
  Permutation (completionOrder sched l) l.
Proof. now apply settleOrder_perm. Qed.

Lemma take_out_In {A} (x : A) (l : list A) :
  In x l -> exists k r, (k < length l)%nat /\ take_out k l = Some (x, r).
Proof.
  induction l as [|a l IH]; simpl; intros H; [contradiction|].
  destruct H as [-> | H].
  - exists O, l. split; [lia | reflexivity].
  - destruct (IH H) as (k & r & Hk & E).
    exists (S k), (a :: r). split; [lia|]. now rewrite E.
Qed.

(** And every order is the order of some schedule. *)
Lemma completionOrder_complete {A} (order : list A) :
  forall l, Permutation order l -> exists sched, completionOrder sched l = order.
Proof.
  induction order as [|x order IH]; intros l P.
  - apply Permutation_nil in P. subst. now exists [].
  - destruct (take_out_In x l) as (k & r & Hk & E).
    { eapply Permutation_in; [exact P | now left]. }
    destruct (take_out_perm _ _ _ _ E) as [P' L].
    destruct (IH r) as [sched Hs].
    { eapply Permutation_cons_inv. eapply Permutation_trans; [exact P|].
      apply Permutation_sym. exact P'. }
    exists (k :: sched). unfold completionOrder in *. rewrite L. simpl.
    rewrite L, Nat.mod_small by lia. rewrite E. now rewrite Hs.
Qed.

End HostFacts.

(** ** The orchestrator *)

Module OrchestratorFacts.
Import Geometry Host Orchestrator GeometryFacts HostFacts.

Lemma promiseAll_fulfilled {A} (l : list (Settled A)) (r : list A) :
  promiseAll l = Fulfilled r <-> l = map Fulfilled r.
Proof.
  revert r. induction l as [|s l IH]; intros r; simpl.
  - split; intros H.
    + inversion H. reflexivity.
    + destruct r; [reflexivity | discriminate].
  - destruct s as [a|].
    + destruct (promiseAll l) as [r'|] eqn:E.
      * split; intros H.
        -- inversion H; subst. simpl. f_equal. now apply IH.
        -- destruct r as [|b r]; [discriminate|]. simpl in H.
           injection H as Ha Hl. subst a.
           apply (proj2 (IH r)) in Hl. congruence.
      * split; intros H; [discriminate|].
        destruct r as [|b r]; [discriminate|]. simpl in H.
        injection H as Ha Hl. apply (proj2 (IH r)) in Hl. discriminate.
    + split; intros H; [discriminate|]. destruct r; discriminate.
Qed.

Lemma insertByPriority_perm p l : Permutation (insertByPriority p l) (p :: l).
Proof.
  induction l as [|q l IH]; simpl; [apply Permutation_refl|].
  destruct (inclusionPriority p <=? inclusionPriority q).
  - apply Permutation_refl.
  - eapply Permutation_trans; [apply perm_skip, IH | apply perm_swap].
Qed.

Lemma sortByPriority_perm l : Permutation (sortByPriority l) l.
Proof.
  induction l as [|p l IH]; simpl; [apply Permutation_refl|].
  eapply Permutation_trans; [apply insertByPriority_perm|].
  now apply perm_skip.
Qed.

(** The providers asked are those of positive priority valid for the
    scope. *)
Lemma filterProvidersByScopeName_In providers scope p :
  In p (filterProvidersByScopeName providers scope) <->
  In p providers /\ 0 < inclusionPriority p /\ validForScope p scope = true.
Proof.
  unfold filterProvidersByScopeName.
  split.
  - intros H. eapply Permutation_in in H; [|apply sortByPriority_perm].
    apply filter_In in H. destruct H as [H1 H2].
    apply andb_true_iff in H2. destruct H2 as [H2 H3].
    apply Z.ltb_lt in H2. auto.
  - intros (H1 & H2 & H3).
    eapply Permutation_in; [apply Permutation_sym, sortByPriority_perm|].
    apply filter_In. split; [assumption|].
    apply andb_true_iff. split; [now apply Z.ltb_lt | assumption].
Qed.

(** Folding ranges into [combinedRange] keeps it the smallest range
    covering those seen so far. *)
Lemma fold_combine_cover (ds : list Datatip) :
  forall (R0 : Range) (seen : list Range),
    smallest_cover R0 seen ->
    Forall (fun d => wf_range (range d)) ds ->
    exists R, fold_left combine ds (Some R0) = Some R /\
              smallest_cover R (seen ++ map range ds).
Proof.
  induction ds as [|d ds IH]; intros R0 seen HR0 Hwf; simpl.
  - exists R0. now rewrite app_nil_r.
  - inversion Hwf as [|? ? Hd Hds]; subst.
    destruct HR0 as (W0 & C0 & L0).
    destruct (union_ends R0 (range d) W0 Hd) as (Wu & Cu1 & Cu2 & _).
    destruct (IH (union R0 (range d)) (seen ++ [range d])) as (R & E & S).
    + split; [exact Wu|]. split.
      * apply Forall_app. split.
        -- eapply List.Forall_impl; [|exact C0].
           intros r Hr. simpl in Hr. exact (covers_trans _ _ _ Cu1 Hr).
        -- constructor; [exact Cu2 | constructor].
      * intros R' HR'. apply Forall_app in HR'. destruct HR' as [H1 H2].
        inversion H2; subst. apply union_least; auto.
    + exact Hds.
    + exists R. split; [exact E|]. now rewrite <- app_assoc in S.
Qed.

Lemma fold_combine_smallest (ds : list Datatip) :
  ds <> [] ->
  Forall (fun d => wf_range (range d)) ds ->
  exists R, fold_left combine ds None = Some R /\
            smallest_cover R (map range ds).
Proof.
  destruct ds as [|d ds]; [congruence|]. intros _ Hwf.
  inversion Hwf as [|? ? Hd Hds]; subst. simpl.
  apply (fold_combine_cover ds (range d) [range d]); [|exact Hds].
  split; [exact Hd|]. split.
  - constructor; [apply covers_refl | constructor].
  - intros R' H. now inversion H.
Qed.

Lemma smallest_cover_perm R rs rs' :
  Permutation rs rs' -> smallest_cover R rs -> smallest_cover R rs'.
Proof.
  intros P (W & C & L). split; [exact W|]. split.
  - eapply Permutation_Forall; eauto.
  - intros R' H. apply L. eapply Permutation_Forall; [|exact H].
    now apply Permutation_sym.
Qed.

(** There is one smallest cover. *)
Lemma smallest_cover_unique R R' rs :
  smallest_cover R rs -> smallest_cover R' rs -> R = R'.
Proof.
  intros (_ & C & L) (_ & C' & L').
  destruct (L R' C') as [A1 A2]. destruct (L' R C) as [B1 B2].
  destruct R, R'; simpl in *. f_equal; now apply ple_antisym.
Qed.

(** A provider is rendered exactly when it returned content. *)
Lemma rendered_length (ps : list DatatipProvider) :
  forall answers : list (option Datatip),
    length ps = length answers ->
    length (arrayCompact (zip_with renderProvider ps answers))
    = length (arrayCompact answers).
Proof.
  unfold arrayCompact.
  induction ps as [|p ps IH]; intros [|a answers] Hl; simpl in *;
    try reflexivity; try discriminate.
  destruct a as [d|]; simpl.
  - destruct (pinnable d) as [[|]|]; simpl; f_equal; apply IH; lia.
  - apply IH. lia.
Qed.

(** What [fetchDatatip] resolves to when every provider asked has
    answered, with content or without. *)
Lemma fetchDatatip_answers ed pos allProviders sched answers :
  filterProvidersByScopeName allProviders (scopeName ed) <> [] ->
  map (fun p => datatip p ed pos)
      (filterProvidersByScopeName allProviders (scopeName ed))
  = map Fulfilled answers ->
  fetchDatatip ed pos allProviders sched =
  match arrayCompact
          (zip_with renderProvider
             (filterProvidersByScopeName allProviders (scopeName ed)) answers)
  with
  | [] => Fulfilled None
  | items =>
      Fulfilled
        (Some (mkCombined
                 (fold_left combine
                    (arrayCompact (completionOrder sched answers)) None)
                 items))
  end.
Proof.
  intros Hne Hans. unfold fetchDatatip.
  destruct (filterProvidersByScopeName allProviders (scopeName ed))
    as [|p ps] eqn:E; [congruence|].
  apply promiseAll_fulfilled in Hans. rewrite Hans. reflexivity.
Qed.

(** The combined range is the smallest cover of the ranges returned, in
    whatever order the providers answer. *)
Lemma combinedRange_smallest sched (answers : list (option Datatip)) :
  arrayCompact answers <> [] ->
  Forall (fun d => wf_range (range d)) (arrayCompact answers) ->
  exists R,
    fold_left combine (arrayCompact (completionOrder sched answers)) None
    = Some R /\
    smallest_cover R (map range (arrayCompact answers)).
Proof.
  intros Hne Hwf.
  assert (P : Permutation (arrayCompact (completionOrder sched answers))
                          (arrayCompact answers)).
  { unfold arrayCompact. apply omap_Permutation, completionOrder_perm. }
  destruct (fold_combine_smallest
              (arrayCompact (completionOrder sched answers))) as (R & E & S).
  - intros E. rewrite E in P. apply Permutation_nil in P. congruence.
  - eapply Permutation_Forall; [apply Permutation_sym, P | exact Hwf].
  - exists R. split; [exact E|].
    eapply smallest_cover_perm; [|exact S]. now apply Permutation_map.
Qed.

End OrchestratorFacts.

(** ** The fetch orchestrator: the claims *)

Section FetchClaims.
Import Geometry Host Orchestrator GeometryFacts HostFacts OrchestratorFacts.

Variables (ed : TextEditor) (pos : Point) (allProviders : list DatatipProvider).

(** The providers [fetchDatatip] asks. *)
Local Abbreviation asked :=
  (filterProvidersByScopeName allProviders (scopeName ed)).

(** C4. When the N providers asked all return content with a range,
    [fetchDatatip] resolves to a result whose range is the smallest range
    covering the N ranges, in whatever order the providers answer. *)
Theorem fetchDatatip_combined_range_is_union (sched : list nat) (ds : list Datatip) :
  asked <> [] ->
  map (fun p => datatip p ed pos) asked = map (fun d => Fulfilled (Some d)) ds ->
  Forall (fun d => wf_range (range d)) ds ->
  exists R items,
    fetchDatatip ed pos allProviders sched
    = Fulfilled (Some (mkCombined (Some R) items)) /\
    length items = length ds /\
    smallest_cover R (map range ds).
Proof.
  intros Hne Hans Hwf.
  assert (Hc : arrayCompact (map Some ds) = ds).
  { unfold arrayCompact. clear.
    induction ds as [|d l IH]; simpl; [reflexivity | f_equal; exact IH]. }
  assert (Hans' : map (fun p => datatip p ed pos)
                      (filterProvidersByScopeName allProviders (scopeName ed))
                  = map Fulfilled (map Some ds)).
  { rewrite Hans. now rewrite map_map. }
  assert (Hlen : length (filterProvidersByScopeName allProviders (scopeName ed))
                 = length (map Some ds)).
  { apply (f_equal (@length _)) in Hans'. now rewrite !length_map in *. }
  assert (Hds : ds <> []).
  { intros ->. destruct (filterProvidersByScopeName allProviders (scopeName ed));
      [congruence | discriminate]. }
  rewrite (fetchDatatip_answers _ _ _ sched _ Hne Hans').
  pose proof (rendered_length _ _ Hlen) as Hr. rewrite Hc in Hr.
  destruct (combinedRange_smallest sched (map Some ds)) as (R & E & S).
  - now rewrite Hc.
  - now rewrite Hc.
  - rewrite Hc in S. rewrite E.
    destruct (arrayCompact (zip_with renderProvider _ (map Some ds)))
      as [|item items] eqn:Ei.
    + destruct ds; [congruence | discriminate].
    + exists R, (item :: items). auto.
Qed.

End FetchClaims.

(** The two providers of the specification's scenario, answering in either
    order: ranges (5,0)-(5,3) and (5,2)-(5,10) combine to (5,0)-(5,10). *)
Lemma fetchDatatip_combined_range_is_union_witness :
  exists R items,
    Orchestrator.fetchDatatip Examples.jsEditor (Geometry.mkPoint 5 2)
      [Examples.providerB; Examples.disabled; Examples.providerA] [1%nat]
    = Host.Fulfilled (Some (Orchestrator.mkCombined (Some R) items)) /\
    length items = 2%nat /\
    Geometry.smallest_cover R [Examples.line 5 0 3; Examples.line 5 2 10].
Proof.
  apply (fetchDatatip_combined_range_is_union
           Examples.jsEditor (Geometry.mkPoint 5 2)
           [Examples.providerB; Examples.disabled; Examples.providerA]
           [1%nat] [Examples.tipA; Examples.tipB]).
  - discriminate.
  - reflexivity.
  - repeat constructor; unfold Geometry.wf_range, Geometry.ple; simpl; lia.
Defined.

Example fetchDatatip_scenario :
  Orchestrator.fetchDatatip Examples.jsEditor (Geometry.mkPoint 5 2)
    [Examples.providerB; Examples.disabled; Examples.providerA] [1%nat]
  = Host.Fulfilled
      (Some (Orchestrator.mkCombined
               (Some (Examples.line 5 0 10))
               [Orchestrator.mkRendered "A" (Some Orchestrator.PIN)
                  (Some "Pin this Datatip"%string) Examples.tipA;
                Orchestrator.mkRendered "B" None None Examples.tipB])).
Proof. reflexivity. Qed.

(** ** The state machine *)

Module ForEditorFacts.
Import Geometry Host Orchestrator ForEditor.

Lemma state_eqb_eq a b : state_eqb a b = true <-> a = b.
Proof. destruct a, b; simpl; split; congruence. Qed.

Lemma state_setState s w : state (_setState s w) = s.
Proof.
  unfold _setState, _hideDatatip, state.
  destruct w as [m ps ed t ms n st fl], m; simpl.
  destruct s, _datatipState0; simpl; try reflexivity;
    destruct _marker0; reflexivity.
Qed.

Lemma blacklist_setState_HIDDEN w :
  _blacklistedPosition (manager (_setState HIDDEN w)) = None.
Proof.
  unfold _setState, _hideDatatip, state.
  destruct w as [m ps ed t ms n st fl], m; simpl.
  destruct _datatipState0; simpl; try reflexivity;
    destruct _marker0; reflexivity.
Qed.

Ltac open_world w :=
  let m := fresh "m" in
  destruct w as [m ? ? ? ? ? ? ?]; destruct m; simpl in *.

(** Hiding leaves no marker behind. *)
Lemma invariant_setState_HIDDEN w :
  marker_invariant w ->
  marker_invariant (_setState HIDDEN w) /\
  _marker (manager (_setState HIDDEN w)) = None /\
  markers (_setState HIDDEN w) = [].
Proof.
  unfold marker_invariant, _setState, _hideDatatip, destroyMarker, state.
  open_world w.
  destruct _marker0 as [mk|]; intros [Hs Hm]; subst; simpl.
  - rewrite Nat.eqb_refl. simpl. repeat split; congruence.
  - destruct _datatipState0; simpl; repeat split; congruence.
Qed.

Lemma invariant_setState_FETCHING w :
  marker_invariant w -> state w = HIDDEN ->
  marker_invariant (_setState FETCHING w).
Proof.
  unfold marker_invariant, _setState, state.
  open_world w. intros H ->. simpl.
  destruct _marker0; destruct H; split; congruence.
Qed.

(** The invariant looks at the state, the field [_marker] and the
    editor's markers only. *)
Lemma invariant_same w w' :
  state w' = state w ->
  _marker (manager w') = _marker (manager w) ->
  markers w' = markers w ->
  marker_invariant w -> marker_invariant w'.
Proof.
  unfold marker_invariant. intros -> -> ->. exact (fun H => H).
Qed.

Ltac same := eapply invariant_same; [reflexivity | reflexivity | reflexivity | ].

Lemma invariant_setState_HIDDEN' w :
  marker_invariant w -> marker_invariant (_setState HIDDEN w).
Proof. intros H. now apply invariant_setState_HIDDEN. Qed.

Lemma invariant_startFetching source w :
  marker_invariant w -> marker_invariant (_startFetching source w).
Proof.
  intros H. unfold _startFetching.
  destruct (state_eqb (state w) HIDDEN) eqn:E; simpl; [|exact H].
  apply state_eqb_eq in E.
  destruct (getPosition source w); [|exact H].
  same. now apply invariant_setState_FETCHING.
Qed.

(** Showing a tooltip: the state is [VISIBLE] and the new marker is the
    only one. *)
Lemma invariant_show r items w :
  marker_invariant w -> state w <> VISIBLE ->
  marker_invariant
    (let w := _setState VISIBLE w in
     let w := this (set_range (Some r)) w in
     let (marker, w) := renderDatatip r items w in
     this (set_marker (Some marker)) w).
Proof.
  unfold marker_invariant, _setState, renderDatatip, state.
  open_world w. intros H Hs.
  destruct _marker0; destruct H as [H1 H2]; [congruence|].
  subst. destruct _datatipState0; simpl; split; congruence.
Qed.

Lemma invariant_resume source data w :
  marker_invariant w -> marker_invariant (_startFetching_resume source data w).
Proof.
  intros H. unfold _startFetching_resume.
  destruct data as [data|]; [|now apply invariant_setState_HIDDEN'].
  set (w1 := if negb (state_eqb (state w) FETCHING)
             then _setState HIDDEN w else w).
  assert (H1 : marker_invariant w1 /\ state w1 <> VISIBLE).
  { subst w1. destruct (state_eqb (state w) FETCHING) eqn:E; simpl.
    - apply state_eqb_eq in E. split; [exact H | congruence].
    - split; [now apply invariant_setState_HIDDEN'|].
      rewrite state_setState. discriminate. }
  destruct H1 as [H1 Hv].
  destruct (match _blacklistedPosition (manager w1), cr_range data with
            | Some p, Some r => containsPoint r p
            | _, _ => false
            end); [now apply invariant_setState_HIDDEN'|].
  destruct (getPosition source w1) as [p|];
    [|now apply invariant_setState_HIDDEN'].
  destruct (cr_range data) as [r|]; [|now apply invariant_setState_HIDDEN'].
  destruct (containsPoint r p); [|now apply invariant_setState_HIDDEN'].
  now apply invariant_show.
Qed.

Lemma invariant_hideOrCancel w :
  marker_invariant w -> marker_invariant (_hideOrCancel w).
Proof.
  intros H. unfold _hideOrCancel.
  destruct (state w); try (same; exact H).
  now apply invariant_setState_HIDDEN'.
Qed.

Lemma invariant_hideIfOutside w :
  marker_invariant w -> marker_invariant (_hideIfOutside w).
Proof.
  intros H. unfold _hideIfOutside.
  destruct (negb (state_eqb (state w) VISIBLE)); [exact H|].
  destruct (_insideDatatip (manager w)); [exact H|].
  destruct (getBufferPosition (editor w) (_lastMoveEvent (manager w)));
    [|now apply invariant_setState_HIDDEN'].
  destruct (_range (manager w)); [|now apply invariant_setState_HIDDEN'].
  destruct (containsPoint _ _); [exact H|].
  now apply invariant_setState_HIDDEN'.
Qed.

Lemma invariant_toggleDatatip active w :
  marker_invariant w -> marker_invariant (_toggleDatatip active w).
Proof.
  intros H. unfold _toggleDatatip.
  destruct (negb _); [exact H|].
  destruct (_ && _); [now apply invariant_startFetching | exact H].
Qed.

Lemma invariant_dispose w :
  marker_invariant w -> marker_invariant (dispose w).
Proof.
  intros H. unfold dispose. same. now apply invariant_setState_HIDDEN'.
Qed.

Lemma invariant_deliver ev w :
  marker_invariant w -> marker_invariant (deliver ev w).
Proof.
  intros H. destruct ev; simpl; try exact H.
  - unfold _setStartFetchingDebounce. same.
    destruct (_startFetchingDebounce (manager w)); [same|]; exact H.
  - assert (H' : marker_invariant (this (set_lastMoveEvent (Some e)) w))
      by (same; exact H).
    destruct (state_eqb _ _).
    + unfold call_startFetchingDebounce. same. exact H'.
    + now apply invariant_hideIfOutside.
  - destruct (insideDatatipElement path);
      [exact H | now apply invariant_hideOrCancel].
  - destruct (hasModifier e); [exact H | now apply invariant_hideOrCancel].
  - apply invariant_hideIfOutside. same. exact H.
  - apply invariant_hideIfOutside. same. exact H.
  - assert (H' : marker_invariant (this (set_lastMoveEvent None) w))
      by (same; exact H).
    destruct (state_eqb _ _);
      [now apply invariant_setState_HIDDEN' | exact H'].
  - now apply invariant_toggleDatatip.
Qed.

Lemma invariant_step ev w :
  marker_invariant w -> marker_invariant (step ev w).
Proof.
  intros H. unfold step.
  destruct (subscribed ev) eqn:Es.
  { destruct (_subscriptions (manager w));
      [now apply invariant_deliver | exact H]. }
  destruct ev; try discriminate Es; try exact H.
  - destruct (_startFetchingDebounce (manager w)); [|exact H].
    apply invariant_startFetching. same. exact H.
  - destruct (strayTimers w); [exact H|].
    apply invariant_startFetching. same. exact H.
  - unfold settle. destruct (inflight w !! k) as [f|]; [|exact H].
    assert (H' : marker_invariant (set_inflight (removeAt k (inflight w)) w))
      by (same; exact H).
    destruct (fetchDatatip _ _ _ _); [|exact H'].
    now apply invariant_resume.
  - unfold pinClick.
    destruct (rendered _) as [items|]; [|exact H].
    destruct (items !! i) as [item|]; [|exact H].
    destruct (rp_action item) as [[]|]; [|exact H].
    unfold _handlePinClicked. same. now apply invariant_setState_HIDDEN'.
  - now apply invariant_dispose.
Qed.

Lemma invariant_create editorId ed providers clock :
  marker_invariant (create editorId ed providers clock).
Proof. split; [discriminate | reflexivity]. Qed.

Lemma invariant_run evs :
  forall w, marker_invariant w -> marker_invariant (run evs w).
Proof.
  induction evs as [|ev evs IH]; intros w H; simpl; [exact H|].
  apply IH. now apply invariant_step.
Qed.

(** [_setState] leaves timers, subscriptions and fetches alone. *)
Lemma setState_frame s w :
  _startFetchingDebounce (manager (_setState s w))
  = _startFetchingDebounce (manager w) /\
  _subscriptions (manager (_setState s w)) = _subscriptions (manager w) /\
  strayTimers (_setState s w) = strayTimers w /\
  inflight (_setState s w) = inflight w.
Proof.
  unfold _setState, _hideDatatip, destroyMarker, state.
  destruct w as [m ps ed t ms n st fl], m; simpl.
  destruct s, _datatipState0; simpl; try (repeat split; reflexivity);
    destruct _marker0; repeat split; reflexivity.
Qed.

(** What [_setState] does to the element and to the suppressed position. *)
Lemma setState_effect s w :
  rendered (_datatipElement (manager (_setState s w)))
  = (if state_eqb (state w) VISIBLE && state_eqb s HIDDEN
     then None else rendered (_datatipElement (manager w))) /\
  _blacklistedPosition (manager (_setState s w))
  = (if state_eqb s HIDDEN then None else _blacklistedPosition (manager w)).
Proof.
  unfold _setState, _hideDatatip, destroyMarker, state.
  destruct w as [m ps ed t ms n st fl], m; simpl.
  destruct s, _datatipState0; simpl; try (split; reflexivity);
    destruct _marker0; split; reflexivity.
Qed.

Lemma live_same w w' :
  state w' = state w -> inflight w' = inflight w ->
  rendered (_datatipElement (manager w'))
  = rendered (_datatipElement (manager w)) ->
  live_invariant w -> live_invariant w'.
Proof. unfold live_invariant. intros -> -> ->. exact (fun H => H). Qed.

Ltac live_same :=
  eapply live_same; [reflexivity | reflexivity | reflexivity | ].

Lemma live_hide w :
  live_invariant w -> state w <> FETCHING \/ inflight w = [] ->
  live_invariant (_setState HIDDEN w) /\ inflight (_setState HIDDEN w) = [].
Proof.
  intros (H1 & H2 & H3) Hs.
  assert (Hi : inflight w = []) by tauto.
  unfold live_invariant.
  destruct (setState_frame HIDDEN w) as (_ & _ & _ & Hi').
  destruct (setState_effect HIDDEN w) as (Hr & _).
  rewrite state_setState, Hi', Hr, Hi.
  split; [|reflexivity]. split; [now right|]. split; [simpl; lia|].
  intros _. destruct (state w) eqn:E; simpl; try reflexivity;
    apply H3; congruence.
Qed.

Lemma live_startFetching source w :
  live_invariant w -> live_invariant (_startFetching source w).
Proof.
  intros H. unfold _startFetching.
  destruct (state_eqb (state w) HIDDEN) eqn:E; simpl; [|exact H].
  apply state_eqb_eq in E.
  destruct (getPosition source w); [|exact H].
  destruct H as (H1 & H2 & H3). unfold live_invariant.
  destruct (setState_frame FETCHING w) as (_ & _ & _ & Hi).
  destruct (setState_effect FETCHING w) as (Hr & _).
  cbn [inflight set_inflight manager].
  change (state (set_inflight ?l ?x)) with (state x).
  rewrite state_setState, Hi.
  destruct H1 as [H1 | H1]; [congruence|]. rewrite H1. simpl.
  split; [now left|]. split; [lia|].
  intros _.
  change (rendered (_datatipElement (manager (_setState FETCHING w))) = None).
  rewrite Hr, E. simpl. apply H3. congruence.
Qed.

(** The completion of the fetch that was in flight. *)
Lemma live_resume source data w :
  live_invariant w -> inflight w = [] ->
  live_invariant (_startFetching_resume source data w).
Proof.
  intros H Hi.
  assert (Hh : forall w, live_invariant w -> inflight w = [] ->
                         live_invariant (_setState HIDDEN w)).
  { clear. intros w H Hi. apply live_hide; tauto. }
  unfold _startFetching_resume.
  destruct data as [data|]; [|now apply Hh].
  set (w1 := if negb (state_eqb (state w) FETCHING)
             then _setState HIDDEN w else w).
  assert (H1 : live_invariant w1 /\ inflight w1 = []).
  { subst w1. destruct (negb _); [|tauto]. apply live_hide; tauto. }
  destruct H1 as [H1 Hi1].
  destruct (match _blacklistedPosition (manager w1), cr_range data with
            | Some p, Some r => containsPoint r p
            | _, _ => false
            end); [now apply Hh|].
  destruct (getPosition source w1) as [p|]; [|now apply Hh].
  destruct (cr_range data) as [r|]; [|now apply Hh].
  destruct (containsPoint r p); [|now apply Hh].
  unfold live_invariant, renderDatatip.
  destruct (setState_frame VISIBLE w1) as (_ & _ & _ & Hi').
  cbn. split; [right|split].
  - change (inflight (_setState VISIBLE w1) = []). congruence.
  - change (length (inflight (_setState VISIBLE w1)) <= 1)%nat.
    rewrite Hi', Hi1. simpl. lia.
  - change (state (_setState VISIBLE w1) <> VISIBLE ->
            Some (renderedProviders data) = None).
    rewrite state_setState. congruence.
Qed.

Lemma live_hideOrCancel w :
  live_invariant w -> live_invariant (_hideOrCancel w).
Proof.
  intros H. unfold _hideOrCancel.
  destruct (state w) eqn:E; try (live_same; exact H).
  apply live_hide; [exact H | left; congruence].
Qed.

Lemma live_hideIfOutside w :
  live_invariant w -> live_invariant (_hideIfOutside w).
Proof.
  intros H. unfold _hideIfOutside.
  destruct (state_eqb (state w) VISIBLE) eqn:E; simpl; [|exact H].
  apply state_eqb_eq in E.
  assert (Hh : live_invariant (_setState HIDDEN w))
    by (apply live_hide; [exact H | left; congruence]).
  destruct (_insideDatatip (manager w)); [exact H|].
  destruct (getBufferPosition (editor w) (_lastMoveEvent (manager w)));
    [|exact Hh].
  destruct (_range (manager w)); [|exact Hh].
  destruct (containsPoint _ _); [exact H | exact Hh].
Qed.

Lemma live_deliver ev w :
  live_invariant w -> live_invariant (deliver ev w).
Proof.
  intros H. destruct ev; simpl; try exact H.
  - unfold _setStartFetchingDebounce. live_same.
    destruct (_startFetchingDebounce (manager w)); exact H.
  - destruct (state_eqb _ _); [exact H|].
    apply live_hideIfOutside. exact H.
  - destruct (insideDatatipElement path);
      [exact H | now apply live_hideOrCancel].
  - destruct (hasModifier e); [exact H | now apply live_hideOrCancel].
  - apply live_hideIfOutside. exact H.
  - apply live_hideIfOutside. exact H.
  - destruct (state_eqb _ VISIBLE) eqn:E; [|exact H].
    apply state_eqb_eq in E.
    apply live_hide; [exact H | left].
    change (state w <> FETCHING). change (state w = VISIBLE) in E. congruence.
  - unfold _toggleDatatip. destruct (negb _); [exact H|].
    destruct (_ && _); [now apply live_startFetching | exact H].
Qed.

Lemma removeAt_single {A} (l : list A) k x :
  (length l <= 1)%nat -> l !! k = Some x -> removeAt k l = [].
Proof.
  destruct l as [|a [|b l]]; simpl; intros Hl Hk.
  - discriminate.
  - destruct k; [reflexivity | discriminate].
  - lia.
Qed.

(** The subscriptions are only ever disposed, and without them no
    position is suppressed. *)
Lemma suppressed_none_setState s w :
  _blacklistedPosition (manager w) = None ->
  _blacklistedPosition (manager (_setState s w)) = None.
Proof.
  intros H. destruct (setState_effect s w) as (_ & ->).
  destruct (state_eqb s HIDDEN); [reflexivity | exact H].
Qed.

Lemma suppressed_none_startFetching source w :
  _blacklistedPosition (manager w) = None ->
  _blacklistedPosition (manager (_startFetching source w)) = None.
Proof.
  intros H. unfold _startFetching.
  destruct (negb _); [exact H|].
  destruct (getPosition source w); [|exact H].
  now apply (suppressed_none_setState FETCHING w).
Qed.

Lemma suppressed_none_resume source data w :
  _blacklistedPosition (manager w) = None ->
  _blacklistedPosition (manager (_startFetching_resume source data w)) = None.
Proof.
  intros H. unfold _startFetching_resume.
  destruct data as [data|]; [|apply blacklist_setState_HIDDEN].
  set (w1 := if negb (state_eqb (state w) FETCHING)
             then _setState HIDDEN w else w).
  assert (H1 : _blacklistedPosition (manager w1) = None).
  { subst w1. destruct (negb _); [apply blacklist_setState_HIDDEN | exact H]. }
  rewrite H1.
  destruct (getPosition source w1); [|apply blacklist_setState_HIDDEN].
  destruct (cr_range data) as [r|]; [|apply blacklist_setState_HIDDEN].
  destruct (containsPoint r p); [|apply blacklist_setState_HIDDEN].
  now apply (suppressed_none_setState VISIBLE w1).
Qed.

Lemma subscriptions_setState s w :
  _subscriptions (manager (_setState s w)) = _subscriptions (manager w).
Proof. now destruct (setState_frame s w) as (_ & -> & _). Qed.

Lemma subscriptions_startFetching source w :
  _subscriptions (manager (_startFetching source w)) = _subscriptions (manager w).
Proof.
  unfold _startFetching. destruct (negb _); [reflexivity|].
  destruct (getPosition source w); [|reflexivity].
  apply (subscriptions_setState FETCHING w).
Qed.

Lemma subscriptions_resume source data w :
  _subscriptions (manager (_startFetching_resume source data w))
  = _subscriptions (manager w).
Proof.
  unfold _startFetching_resume.
  destruct data as [data|]; [|apply subscriptions_setState].
  set (w1 := if negb (state_eqb (state w) FETCHING)
             then _setState HIDDEN w else w).
  assert (H1 : _subscriptions (manager w1) = _subscriptions (manager w)).
  { subst w1. destruct (negb _); [apply subscriptions_setState | reflexivity]. }
  rewrite <- H1.
  destruct (match _blacklistedPosition (manager w1), cr_range data with
            | Some p, Some r => containsPoint r p
            | _, _ => false
            end); [apply subscriptions_setState|].
  destruct (getPosition source w1); [|apply subscriptions_setState].
  destruct (cr_range data) as [r|]; [|apply subscriptions_setState].
  destruct (containsPoint r p); [|apply subscriptions_setState].
  apply (subscriptions_setState VISIBLE w1).
Qed.

Lemma subscriptions_hideOrCancel w :
  _subscriptions (manager (_hideOrCancel w)) = _subscriptions (manager w).
Proof.
  unfold _hideOrCancel.
  destruct (state w); try reflexivity. apply subscriptions_setState.
Qed.

Lemma subscriptions_hideIfOutside w :
  _subscriptions (manager (_hideIfOutside w)) = _subscriptions (manager w).
Proof.
  unfold _hideIfOutside.
  destruct (negb _); [reflexivity|].
  destruct (_insideDatatip (manager w)); [reflexivity|].
  destruct (getBufferPosition _ _); [|apply subscriptions_setState].
  destruct (_range (manager w)); [|apply subscriptions_setState].
  destruct (containsPoint _ _); [reflexivity | apply subscriptions_setState].
Qed.

Lemma subscriptions_deliver ev w :
  _subscriptions (manager (deliver ev w)) = _subscriptions (manager w).
Proof.
  destruct ev; simpl; try reflexivity.
  - unfold _setStartFetchingDebounce.
    destruct (_startFetchingDebounce (manager w)); reflexivity.
  - destruct (state_eqb _ _); [reflexivity|].
    apply (subscriptions_hideIfOutside (this (set_lastMoveEvent (Some e)) w)).
  - destruct (insideDatatipElement path);
      [reflexivity | apply subscriptions_hideOrCancel].
  - destruct (hasModifier e); [reflexivity | apply subscriptions_hideOrCancel].
  - apply (subscriptions_hideIfOutside (this (set_insideDatatip true) w)).
  - apply (subscriptions_hideIfOutside (this (set_insideDatatip false) w)).
  - destruct (state_eqb _ _); [|reflexivity].
    apply (subscriptions_setState HIDDEN (this (set_lastMoveEvent None) w)).
  - unfold _toggleDatatip. destruct (negb _); [reflexivity|].
    destruct (_ && _); [apply subscriptions_startFetching | reflexivity].
Qed.

(** Only [dispose] touches the subscriptions. *)
Lemma subscriptions_step ev w :
  _subscriptions (manager (step ev w))
  = match ev with
    | Dispose => false
    | _ => _subscriptions (manager w)
    end.
Proof.
  unfold step. destruct (subscribed ev) eqn:Es.
  { destruct (_subscriptions (manager w)) eqn:Hs.
    - rewrite subscriptions_deliver, Hs. now destruct ev.
    - rewrite Hs. now destruct ev. }
  destruct ev; try discriminate Es; try reflexivity.
  - destruct (_startFetchingDebounce (manager w)); [|reflexivity].
    apply (subscriptions_startFetching FromPointer
             (this (set_startFetchingDebounce false) w)).
  - destruct (strayTimers w) as [|n]; [reflexivity|].
    apply (subscriptions_startFetching FromPointer (set_strayTimers n w)).
  - unfold settle. destruct (inflight w !! k) as [f|]; [|reflexivity].
    destruct (fetchDatatip _ _ _ _); [|reflexivity].
    apply (subscriptions_resume (f_source f) a
             (set_inflight (removeAt k (inflight w)) w)).
  - unfold pinClick.
    destruct (rendered _) as [items|]; [|reflexivity].
    destruct (items !! i) as [item|]; [|reflexivity].
    destruct (rp_action item) as [[]|]; [|reflexivity].
    apply (subscriptions_setState HIDDEN w).
Qed.

(** While the subscriptions are live, every event but the disposal keeps
    the fetches in order. *)
Lemma live_step ev w :
  _subscriptions (manager w) = true -> ev <> Dispose ->
  live_invariant w -> live_invariant (step ev w).
Proof.
  intros Hsub Hev H. unfold step. rewrite Hsub.
  destruct (subscribed ev) eqn:Es; [now apply live_deliver|].
  destruct ev; try discriminate Es; try exact H; try congruence.
  - destruct (_startFetchingDebounce (manager w)); [|exact H].
    apply live_startFetching. live_same. exact H.
  - destruct (strayTimers w); [exact H|].
    apply live_startFetching. live_same. exact H.
  - unfold settle. destruct (inflight w !! k) as [f|] eqn:Ek; [|exact H].
    destruct H as (H1 & H2 & H3).
    assert (H' : live_invariant (set_inflight (removeAt k (inflight w)) w)
                 /\ inflight (set_inflight (removeAt k (inflight w)) w) = []).
    { unfold live_invariant. cbn [inflight set_inflight].
      rewrite (removeAt_single _ _ _ H2 Ek). repeat split.
      - now right.
      - simpl. lia.
      - exact H3. }
    destruct H' as [H' Hi'].
    destruct (fetchDatatip _ _ _ _); [|exact H'].
    now apply live_resume.
  - unfold pinClick.
    destruct (rendered _) as [items|] eqn:Er; [|exact H].
    destruct (items !! i) as [item|]; [|exact H].
    destruct (rp_action item) as [[]|]; [|exact H].
    assert (Hv : state w = VISIBLE).
    { destruct H as (_ & _ & H3). destruct (state w) eqn:E;
        try reflexivity; rewrite H3 in Er; congruence. }
    unfold _handlePinClicked. live_same.
    apply live_hide; [exact H | left; congruence].
Qed.

(** Without subscriptions no position gets suppressed. *)
Lemma suppressed_none_step ev w :
  _subscriptions (manager w) = false ->
  _blacklistedPosition (manager w) = None ->
  _blacklistedPosition (manager (step ev w)) = None.
Proof.
  intros Hsub H. unfold step. rewrite Hsub.
  destruct (subscribed ev) eqn:Es; [exact H|].
  destruct ev; try discriminate Es; try exact H.
  - destruct (_startFetchingDebounce (manager w)); [|exact H].
    now apply suppressed_none_startFetching.
  - destruct (strayTimers w); [exact H|].
    now apply suppressed_none_startFetching.
  - unfold settle. destruct (inflight w !! k) as [f|]; [|exact H].
    destruct (fetchDatatip _ _ _ _); [|exact H].
    now apply suppressed_none_resume.
  - unfold pinClick.
    destruct (rendered _) as [items|]; [|exact H].
    destruct (items !! i) as [item|]; [|exact H].
    destruct (rp_action item) as [[]|]; [|exact H].
    apply (blacklist_setState_HIDDEN w).
  - apply (blacklist_setState_HIDDEN w).
Qed.

Lemma fetch_invariant_step ev w :
  fetch_invariant w -> fetch_invariant (step ev w).
Proof.
  unfold fetch_invariant. intros H.
  rewrite subscriptions_step.
  assert (Hd : ev = Dispose \/ ev <> Dispose)
    by (destruct ev; (now left) || (right; discriminate)).
  destruct Hd as [-> | Hev].
  { apply (blacklist_setState_HIDDEN w). }
  destruct (_subscriptions (manager w)) eqn:Hsub.
  - assert (Hl : live_invariant (step ev w)) by now apply live_step.
    destruct ev; congruence.
  - assert (Hn : _blacklistedPosition (manager (step ev w)) = None)
      by now apply suppressed_none_step.
    destruct ev; congruence.
Qed.

Lemma fetch_invariant_create editorId ed providers clock :
  fetch_invariant (create editorId ed providers clock).
Proof.
  unfold fetch_invariant, live_invariant. simpl. repeat split.
  - now right.
  - lia.
Qed.

Lemma fetch_invariant_run evs :
  forall w, fetch_invariant w -> fetch_invariant (run evs w).
Proof.
  induction evs as [|ev evs IH]; intros w H; simpl; [exact H|].
  apply IH. now apply fetch_invariant_step.
Qed.

End ForEditorFacts.

(** ** The state machine: the claims *)

Section MachineClaims.
Import Geometry Host Orchestrator ForEditor ForEditorFacts.

(** A completion that finds the state [FETCHING] and the suppressed
    position inside the combined range only hides. *)
Lemma resume_blacklisted source data w r p :
  state w = FETCHING ->
  _blacklistedPosition (manager w) = Some p ->
  cr_range data = Some r ->
  containsPoint r p = true ->
  _startFetching_resume source (Some data) w = _setState HIDDEN w.
Proof.
  intros Hs Hb Hr Hc. unfold _startFetching_resume.
  rewrite Hs. simpl. rewrite Hb, Hr, Hc. reflexivity.
Qed.

(** Going to [HIDDEN] from another state than [VISIBLE] touches neither
    the marker nor the element. *)
Lemma setState_HIDDEN_not_visible w :
  state w <> VISIBLE ->
  _setState HIDDEN w =
  this (set_blacklistedPosition None) (this (set_datatipState HIDDEN) w).
Proof.
  unfold _setState, state. intros H.
  destruct (_datatipState (manager w)); simpl; congruence.
Qed.

(** A completion that finds another state than [FETCHING] sets the state
    to [HIDDEN] and goes on as if it were [FETCHING]: with the position
    still in the range, the tooltip is shown. *)
Lemma stale_resume_shows source data w r p :
  state w <> FETCHING ->
  cr_range data = Some r ->
  getPosition source w = Some p ->
  containsPoint r p = true ->
  state (_startFetching_resume source (Some data) w) = VISIBLE /\
  is_Some (_marker (manager (_startFetching_resume source (Some data) w))).
Proof.
  intros Hs Hr Hp Hc. unfold _startFetching_resume.
  assert (E : state_eqb (state w) FETCHING = false)
    by (destruct (state w); simpl; congruence).
  rewrite E. simpl.
  rewrite (blacklist_setState_HIDDEN w).
  assert (Hp' : getPosition source (_setState HIDDEN w) = Some p).
  { rewrite <- Hp. unfold getPosition, _setState, _hideDatatip, destroyMarker, state.
    destruct w as [m ? ? ? ? ? ? ?], m; simpl.
    destruct source, _datatipState0; simpl; try reflexivity;
      destruct _marker0; reflexivity. }
  rewrite Hp', Hr, Hc. unfold renderDatatip. cbn.
  split; [apply state_setState | eauto].
Qed.

(** The completion handler at a world in the state [FETCHING]. *)
Lemma settle_at_suppressed_position
    (w : World) (k : nat) (sched : list nat) (f : Fetch)
    (data : CombinedResult) (r : Range) (p : Point) :
  state w = FETCHING ->
  _blacklistedPosition (manager w) = Some p ->
  inflight w !! k = Some f ->
  fetchDatatip (f_editor f) (f_position f) (f_providers f) sched
  = Fulfilled (Some data) ->
  cr_range data = Some r ->
  containsPoint r p = true ->
  state (step (FetchSettled k sched) w) = HIDDEN /\
  _marker (manager (step (FetchSettled k sched) w)) = _marker (manager w) /\
  markers (step (FetchSettled k sched) w) = markers w.
Proof.
  intros Hs Hb Hk Hf Hr Hc.
  unfold step. simpl. unfold settle. rewrite Hk, Hf.
  rewrite (resume_blacklisted _ _ _ r p); try assumption.
  rewrite setState_HIDDEN_not_visible.
  - repeat split.
  - change (state w <> VISIBLE). congruence.
Qed.

(** C2. After any sequence of events, if the suppressed position is set
    and a fetch in flight completes with a result whose combined range
    contains that position, then the state was Fetching and becomes
    Hidden, not Visible, and no marker is created. *)
Theorem blacklisted_completion_hides
    (editorId : positive) (ed : TextEditor) (providers : list DatatipProvider)
    (clock : Z) (evs : list Event)
    (k : nat) (sched : list nat) (f : Fetch)
    (data : CombinedResult) (r : Range) (p : Point) :
  let w := run evs (create editorId ed providers clock) in
  _blacklistedPosition (manager w) = Some p ->
  inflight w !! k = Some f ->
  fetchDatatip (f_editor f) (f_position f) (f_providers f) sched
  = Fulfilled (Some data) ->
  cr_range data = Some r ->
  containsPoint r p = true ->
  state w = FETCHING /\
  state (step (FetchSettled k sched) w) = HIDDEN /\
  state (step (FetchSettled k sched) w) <> VISIBLE /\
  _marker (manager (step (FetchSettled k sched) w)) = None /\
  markers (step (FetchSettled k sched) w) = [].
Proof.
  intros w Hb Hk Hf Hr Hc.
  assert (Hf' : fetch_invariant w)
    by apply fetch_invariant_run, fetch_invariant_create.
  assert (Hm : marker_invariant w)
    by apply invariant_run, invariant_create.
  assert (Hs : state w = FETCHING).
  { unfold fetch_invariant in Hf'.
    destruct (_subscriptions (manager w)); [|congruence].
    destruct Hf' as ([H | H] & _); [exact H|].
    rewrite H in Hk. discriminate. }
  destruct (settle_at_suppressed_position w k sched f data r p)
    as (H1 & H2 & H3); try assumption.
  unfold marker_invariant in Hm.
  destruct (_marker (manager w)); destruct Hm as [Hv Hms]; [congruence|].
  repeat split; try congruence.
Qed.

(** C3. After any sequence of events, the manager has a marker exactly
    when its state is Visible, the editor holds that marker and no other
    of the manager, so at most one, and an event that takes the state from
    Visible to Hidden leaves no marker. *)
Theorem marker_iff_visible
    (editorId : positive) (ed : TextEditor) (providers : list DatatipProvider)
    (clock : Z) (evs : list Event) :
  let w := run evs (create editorId ed providers clock) in
  (is_Some (_marker (manager w)) <-> state w = VISIBLE) /\
  markers w = option_list (_marker (manager w)) /\
  (length (markers w) <= 1)%nat /\
  (forall ev,
      state w = VISIBLE -> state (step ev w) = HIDDEN ->
      _marker (manager (step ev w)) = None /\ markers (step ev w) = []).
Proof.
  intros w.
  assert (H : marker_invariant w)
    by apply invariant_run, invariant_create.
  repeat split.
  - intros [mk E]. unfold marker_invariant in H. rewrite E in H. tauto.
  - intros Hv. unfold marker_invariant in H.
    destruct (_marker (manager w)); [eauto | tauto].
  - unfold marker_invariant in H.
    destruct (_marker (manager w)); simpl; tauto.
  - unfold marker_invariant in H.
    destruct (_marker (manager w)); destruct H as [_ ->]; simpl; lia.
  - pose proof (invariant_step ev w H) as H'. unfold marker_invariant in H'.
    destruct (_marker (manager (step ev w))); [|reflexivity].
    destruct H' as [H' _]. congruence.
  - pose proof (invariant_step ev w H) as H'. unfold marker_invariant in H'.
    destruct (_marker (manager (step ev w))); [|tauto].
    destruct H' as [H' _]. congruence.
Qed.

(** C9. A keydown with alt, ctrl, meta or shift held changes nothing of
    the manager; a keydown without any of them is a dismiss trigger: it
    runs [_hideOrCancel]. *)
Theorem keydown_with_modifier_is_ignored (w : World) (e : KeyboardEvent) :
  (altKey e = true \/ ctrlKey e = true \/ metaKey e = true \/ shiftKey e = true ->
   step (KeyDown e) w = w) /\
  (altKey e = false /\ ctrlKey e = false /\ metaKey e = false /\ shiftKey e = false ->
   _subscriptions (manager w) = true ->
   step (KeyDown e) w = _hideOrCancel w).
Proof.
  unfold step. simpl. unfold hasModifier. split.
  - intros H. destruct (_subscriptions (manager w)); [|reflexivity].
    destruct (altKey e), (ctrlKey e), (metaKey e), (shiftKey e);
      try reflexivity.
    destruct H as [H | [H | [H | H]]]; discriminate.
  - intros (-> & -> & -> & ->) ->. reflexivity.
Qed.

(** C10. A mousedown outside the tooltip's element, or a keydown without
    modifier, that arrives while the state is Hidden, or Fetching, stores
    the buffer position of the last pointer event as the suppressed
    position and changes nothing else; the state stays as it was. *)
Theorem dismiss_records_suppressed_position (w : World) (ev : Event) :
  _subscriptions (manager w) = true ->
  state w = HIDDEN \/ state w = FETCHING ->
  (exists path, ev = MouseDown path /\ insideDatatipElement path = false) \/
  (exists e, ev = KeyDown e /\ hasModifier e = false) ->
  step ev w =
  this (set_blacklistedPosition
          (getBufferPosition (editor w) (_lastMoveEvent (manager w)))) w /\
  state (step ev w) = state w /\
  _blacklistedPosition (manager (step ev w))
  = getBufferPosition (editor w) (_lastMoveEvent (manager w)).
Proof.
  intros Hsub Hs Hev.
  assert (E : step ev w = _hideOrCancel w).
  { destruct Hev as [(path & -> & Hp) | (e & -> & He)];
      unfold step; simpl; rewrite Hsub; [rewrite Hp | rewrite He]; reflexivity. }
  assert (E' : _hideOrCancel w =
               this (set_blacklistedPosition
                       (getBufferPosition (editor w)
                          (_lastMoveEvent (manager w)))) w).
  { unfold _hideOrCancel. destruct Hs as [-> | ->]; reflexivity. }
  rewrite E, E'. repeat split.
Qed.

End MachineClaims.

Section NoContent.
Import Geometry Host Orchestrator ForEditor ForEditorFacts OrchestratorFacts.

Lemma arrayCompact_nil_of_length {A} (l : list A) : length l = O -> l = [].
Proof. destruct l; [reflexivity | discriminate]. Qed.

(** When every provider asked returns no content, nothing is rendered. *)
Lemma fetchDatatip_no_content ed pos allProviders sched :
  Forall (fun p => datatip p ed pos = Fulfilled None)
         (filterProvidersByScopeName allProviders (scopeName ed)) ->
  fetchDatatip ed pos allProviders sched = Fulfilled None.
Proof.
  intros H.
  destruct (filterProvidersByScopeName allProviders (scopeName ed))
    as [|p ps] eqn:E.
  { unfold fetchDatatip. now rewrite E. }
  rewrite (fetchDatatip_answers ed pos allProviders sched
             (map (fun _ => None) (p :: ps))).
  - rewrite E.
    rewrite (arrayCompact_nil_of_length
               (arrayCompact (zip_with renderProvider (p :: ps)
                                       (map (fun _ => None) (p :: ps))))).
    + reflexivity.
    + rewrite rendered_length by now rewrite length_map.
      clear. unfold arrayCompact.
      induction (p :: ps) as [|q l IH]; [reflexivity | exact IH].
  - rewrite E. discriminate.
  - rewrite E. rewrite map_map. clear E.
    induction H as [|q l Hq Hl IH]; simpl; [reflexivity|].
    now rewrite Hq, IH.
Qed.

(** C7. When no provider of the registry has a positive priority and is
    valid for the scope of the editor, or every such provider returns no
    content, [fetchDatatip] resolves to null, it does not reject, and the
    completion of such a fetch takes the manager to Hidden. *)
Theorem no_content_resolves_null_and_hides
    (ed : TextEditor) (pos : Point) (allProviders : list DatatipProvider)
    (sched : list nat) :
  (forall p, In p allProviders ->
             ~ (0 < inclusionPriority p /\ validForScope p (scopeName ed) = true))
  \/
  (forall p, In p allProviders ->
             0 < inclusionPriority p -> validForScope p (scopeName ed) = true ->
             datatip p ed pos = Fulfilled None) ->
  fetchDatatip ed pos allProviders sched = Fulfilled None /\
  forall (w : World) (k : nat) (source : PositionSource),
    inflight w !! k = Some (mkFetch source ed pos allProviders) ->
    step (FetchSettled k sched) w
    = _setState HIDDEN (set_inflight (removeAt k (inflight w)) w) /\
    state (step (FetchSettled k sched) w) = HIDDEN.
Proof.
  intros H.
  assert (E : fetchDatatip ed pos allProviders sched = Fulfilled None).
  { apply fetchDatatip_no_content. apply List.Forall_forall. intros p Hp.
    apply filterProvidersByScopeName_In in Hp. destruct Hp as (Hin & Hpr & Hv).
    destruct H as [H | H]; [|now apply H].
    exfalso. apply (H p Hin). split; assumption. }
  split; [exact E|].
  intros w k source Hk.
  assert (Es : step (FetchSettled k sched) w
               = _setState HIDDEN (set_inflight (removeAt k (inflight w)) w)).
  { unfold step. simpl. unfold settle. rewrite Hk. simpl. rewrite E.
    reflexivity. }
  split; [exact Es|]. rewrite Es. apply state_setState.
Qed.

End NoContent.

(** ** The registry: the claims *)

Section RegistryClaims.
Import Geometry Host Orchestrator.

(** C8. [createPinnedDataTip] of the registry, for an editor without a
    manager, throws the error that says there is no datatip manager and
    returns no pinned tooltip; for an editor with a manager it returns the
    pinned tooltip that manager's [createPinnedDataTip] makes. An editor
    has a manager from when it is observed to when it is destroyed. *)
Theorem createPinnedDataTip_needs_manager
    (reg : Registry.DatatipManager) (component : nat) (r : Range)
    (pinnable : option bool) (editor : positive) :
  (Registry._editorManagers reg !! editor = None ->
   Registry.createPinnedDataTip component r pinnable editor reg
   = Registry.Threw Registry.noManagerMessage /\
   (forall pinned,
       Registry.createPinnedDataTip component r pinnable editor reg
       <> Registry.Returned pinned)) /\
  (forall manager,
      Registry._editorManagers reg !! editor = Some manager ->
      Registry.createPinnedDataTip component r pinnable editor reg
      = Registry.Returned
          (ForEditor.createPinnedDataTip component r pinnable editor manager)) /\
  String.index 0 "no datatip manager" Registry.noManagerMessage <> None /\
  (forall ed clock,
      is_Some (Registry._editorManagers
                 (Registry.observeTextEditor editor ed clock reg) !! editor)) /\
  Registry._editorManagers (Registry.editorDestroyed editor reg) !! editor = None.
Proof.
  unfold Registry.createPinnedDataTip.
  split; [|split; [|split; [|split]]].
  - intros ->. split; [reflexivity | discriminate].
  - now intros manager ->.
  - vm_compute. discriminate.
  - intros ed clock. simpl. rewrite lookup_insert_eq. eauto.
  - simpl. apply lookup_delete_eq.
Qed.

End RegistryClaims.

(** ** Disposal and the toggle command *)

Section DisposeAndToggle.
Import Geometry Host Orchestrator ForEditor ForEditorFacts.

(** Once the subscriptions are disposed, what came through them changes
    nothing. *)
Lemma unsubscribed_run (later : list Event) :
  forall w, _subscriptions (manager w) = false ->
            forallb subscribed later = true -> run later w = w.
Proof.
  induction later as [|ev later IH]; intros w Hs Hl; simpl in *;
    [reflexivity|].
  apply andb_true_iff in Hl. destruct Hl as [Hev Hl].
  assert (E : step ev w = w) by (unfold step; now rewrite Hev, Hs).
  rewrite E. now apply IH.
Qed.

(** C5, amended. After any sequence of events, disposing the manager
    leaves it at once in the state Hidden, without marker in the editor
    and without suppressed position, and with its subscriptions disposed:
    no event that came through them (pointer, key, scroll, configuration,
    toggle) changes anything afterwards. A pending timer of the debounced
    function is left pending. *)
Theorem dispose_hides_and_unsubscribes
    (editorId : positive) (ed : TextEditor) (providers : list DatatipProvider)
    (clock : Z) (evs : list Event) :
  let w := run evs (create editorId ed providers clock) in
  let w' := step Dispose w in
  state w' = HIDDEN /\
  _marker (manager w') = None /\
  markers w' = [] /\
  _blacklistedPosition (manager w') = None /\
  _subscriptions (manager w') = false /\
  _startFetchingDebounce (manager w') = _startFetchingDebounce (manager w) /\
  strayTimers w' = strayTimers w /\
  (forall later, forallb subscribed later = true -> run later w' = w').
Proof.
  intros w w'.
  assert (H : marker_invariant w) by apply invariant_run, invariant_create.
  destruct (invariant_setState_HIDDEN w H) as (_ & Hm & Hms).
  destruct (setState_frame HIDDEN w) as (Hd & _ & Hst & _).
  assert (E : w' = this (set_subscriptions false) (_setState HIDDEN w))
    by reflexivity.
  rewrite E.
  split; [apply (state_setState HIDDEN w)|].
  split; [exact Hm|].
  split; [exact Hms|].
  split; [apply (blacklist_setState_HIDDEN w)|].
  split; [reflexivity|].
  split; [exact Hd|].
  split; [exact Hst|].
  intros later Hl. now apply unsubscribed_run.
Qed.

(** C6, amended. While the state is Hidden, the toggle command on the
    active editor starts a fetch at the position of the text cursor when
    more than 100 ms have passed since the tooltip was last hidden, and has
    no effect when 100 ms or less have passed. *)
Theorem toggle_starts_fetch_after_100ms (w : World) (active : option positive) :
  _subscriptions (manager w) = true ->
  active = Some (_editor (manager w)) ->
  state w = HIDDEN ->
  (100 < now w - _lastHiddenTime (manager w) ->
   step (ToggleCommand active) w = _startFetching FromCursor w /\
   state (step (ToggleCommand active) w) = FETCHING /\
   inflight (step (ToggleCommand active) w)
   = inflight w ++
       [mkFetch FromCursor (editor w) (getCursorScreenPosition (editor w))
                (datatipProviders w)]) /\
  (now w - _lastHiddenTime (manager w) <= 100 ->
   step (ToggleCommand active) w = w).
Proof.
  intros Hsub Hact Hs.
  assert (E : step (ToggleCommand active) w =
              if 100 <? now w - _lastHiddenTime (manager w)
              then _startFetching FromCursor w else w).
  { unfold step. simpl. rewrite Hsub. unfold _toggleDatatip.
    rewrite bool_decide_eq_true_2 by exact Hact. simpl.
    rewrite Hs. reflexivity. }
  split; intros Ht.
  - apply Z.ltb_lt in Ht. rewrite E, Ht.
    unfold _startFetching. rewrite Hs. simpl.
    split; [reflexivity|]. split.
    + apply (state_setState FETCHING w).
    + destruct (setState_frame FETCHING w) as (_ & _ & _ & Hi).
      cbn [inflight set_inflight]. rewrite Hi.
      unfold _setState. rewrite Hs. reflexivity.
  - apply Z.ltb_ge in Ht. rewrite E, Ht. reflexivity.
Qed.

End DisposeAndToggle.

(** ** The claims on the example editor *)

Section Scenarios.
Import Geometry Host Orchestrator ForEditor Examples.

(** The pointer rests over (2,2) and the provider answers: the tooltip is
    shown over (2,0)-(2,8). *)
Example tooltip_shown :
  state (run shown initial) = VISIBLE /\
  _marker (manager (run shown initial)) = Some (mkMarker 0 (line 2 0 8)).
Proof. split; reflexivity. Qed.

(** A key pressed while fetching at (2,2): the result, whose range
    contains (2,2), is not shown. *)
Example dismissed_while_fetching :
  state (run [MouseMove overText; DebounceFired; KeyDown plainKey;
              FetchSettled 0 []] initial) = HIDDEN.
Proof. reflexivity. Qed.

(** C1. The manager is disposed while a fetch is in flight, so the state
    is Hidden, not Fetching, when the fetch completes; the completion
    handler sets the state to Hidden and goes on: the state becomes Visible
    and a marker is created. *)
Theorem stale_completion_becomes_visible :
  let w := run [MouseMove overText; DebounceFired; Dispose] initial in
  state w = HIDDEN /\
  inflight w = [mkFetch FromPointer jsEditor (mkPoint 2 2) [providerC]] /\
  state (step (FetchSettled 0 []) w) = VISIBLE /\
  markers (step (FetchSettled 0 []) w) = [mkMarker 0 (line 2 0 8)].
Proof. repeat split. Qed.

(** C5, as stated, fails: the pointer moves, which starts the timer of the
    debounced function, and the manager is disposed; the timer is still
    pending, and when it fires the manager starts a fetch. *)
Lemma dispose_leaves_debounce_timer :
  let w := run [MouseMove overText; Dispose] initial in
  _subscriptions (manager w) = false /\
  _startFetchingDebounce (manager w) = true /\
  state w = HIDDEN /\
  state (step DebounceFired w) = FETCHING /\
  inflight (step DebounceFired w)
  = [mkFetch FromPointer jsEditor (mkPoint 2 2) [providerC]].
Proof. repeat split. Qed.

(** C6, as stated, fails: the tooltip is hidden by a key at time 500 and
    the toggle command comes at time 600, when 100 ms have passed; it has
    no effect. *)
Lemma toggle_at_100ms_has_no_effect :
  let w := run (shown ++ [KeyDown plainKey; TimePassed 100]) initial in
  state w = HIDDEN /\
  now w - _lastHiddenTime (manager w) = 100 /\
  step (ToggleCommand (Some 1%positive)) w = w /\
  state (step (ToggleCommand (Some 1%positive)) w) <> FETCHING.
Proof.
  intros w. split; [reflexivity|]. split; [reflexivity|].
  split; [vm_compute; reflexivity | vm_compute; discriminate].
Qed.

(** The same with the toggle command at time 601: a fetch starts at the
    text cursor. *)
Lemma toggle_starts_fetch_after_100ms_witness :
  let w := run (shown ++ [KeyDown plainKey; TimePassed 101]) initial in
  100 < now w - _lastHiddenTime (manager w) /\
  state (step (ToggleCommand (Some 1%positive)) w) = FETCHING /\
  inflight (step (ToggleCommand (Some 1%positive)) w)
  = [mkFetch FromCursor jsEditor (mkPoint 2 2) [providerC]].
Proof.
  intros w.
  destruct (toggle_starts_fetch_after_100ms w (Some 1%positive))
    as [H _]; try reflexivity.
  split; [reflexivity|].
  destruct H as (_ & H1 & H2); [reflexivity|].
  split; [exact H1 | exact H2].
Defined.

(** Disposal of the manager that shows the tooltip. *)
Lemma dispose_hides_and_unsubscribes_witness :
  let w := step Dispose (run shown initial) in
  state w = HIDDEN /\ markers w = [] /\
  run [MouseMove overText; KeyDown plainKey; ToggleCommand (Some 1%positive)] w
  = w.
Proof.
  destruct (dispose_hides_and_unsubscribes 1%positive jsEditor [providerC]
              500 shown) as (H1 & _ & H2 & _ & _ & _ & _ & H3).
  split; [exact H1|]. split; [exact H2|].
  apply H3. reflexivity.
Defined.

(** A key pressed while fetching at (2,2) suppresses that position. *)
Lemma blacklisted_completion_hides_witness :
  let w := run [MouseMove overText; DebounceFired; KeyDown plainKey] initial in
  _blacklistedPosition (manager w) = Some (mkPoint 2 2) /\
  state w = FETCHING /\
  state (step (FetchSettled 0 []) w) = HIDDEN /\
  markers (step (FetchSettled 0 []) w) = [].
Proof.
  intros w.
  destruct (blacklisted_completion_hides 1%positive jsEditor [providerC] 500
              [MouseMove overText; DebounceFired; KeyDown plainKey] 0 []
              (mkFetch FromPointer jsEditor (mkPoint 2 2) [providerC])
              (mkCombined (Some (line 2 0 8))
                 [mkRendered "C" (Some PIN) (Some "Pin this Datatip"%string)
                             tipC])
              (line 2 0 8) (mkPoint 2 2))
    as (H0 & H1 & _ & _ & H2); try reflexivity.
  split; [reflexivity|]. split; [exact H0|].
  split; [exact H1 | exact H2].
Defined.

(** A key pressed while the tooltip is shown hides it and its marker. *)
Lemma marker_iff_visible_witness :
  let w := run shown initial in
  state w = VISIBLE /\
  state (step (KeyDown plainKey) w) = HIDDEN /\
  _marker (manager (step (KeyDown plainKey) w)) = None /\
  markers (step (KeyDown plainKey) w) = [].
Proof.
  destruct (marker_iff_visible 1%positive jsEditor [providerC] 500 shown)
    as (_ & _ & _ & H).
  split; [reflexivity|]. split; [reflexivity|].
  apply H; reflexivity.
Defined.

(** Shift alone leaves the tooltip; a plain key dismisses it. *)
Lemma keydown_with_modifier_is_ignored_witness :
  step (KeyDown shiftKeyDown) (run shown initial) = run shown initial /\
  step (KeyDown plainKey) (run shown initial)
  = _hideOrCancel (run shown initial).
Proof.
  destruct (keydown_with_modifier_is_ignored (run shown initial) shiftKeyDown)
    as [H _].
  destruct (keydown_with_modifier_is_ignored (run shown initial) plainKey)
    as [_ H'].
  split.
  - apply H. right. right. right. reflexivity.
  - apply H'; repeat split; reflexivity.
Defined.

(** A click in the text while nothing is shown. *)
Lemma dismiss_records_suppressed_position_witness :
  let w := run [MouseMove overText] initial in
  state (step (MouseDown [OtherNode 7; OtherNode 1]) w) = HIDDEN /\
  _blacklistedPosition (manager (step (MouseDown [OtherNode 7; OtherNode 1]) w))
  = Some (mkPoint 2 2).
Proof.
  intros w.
  destruct (dismiss_records_suppressed_position w
              (MouseDown [OtherNode 7; OtherNode 1]))
    as (_ & H1 & H2).
  - reflexivity.
  - left. reflexivity.
  - left. exists [OtherNode 7; OtherNode 1]. split; reflexivity.
  - split; [exact H1 | exact H2].
Defined.

(** One provider without content and one for another language. *)
Lemma no_content_resolves_null_and_hides_witness :
  let w := run [ProviderAdded silent; ProviderAdded python;
                ProviderRemoved 0; MouseMove overText; DebounceFired] initial in
  state w = FETCHING /\
  fetchDatatip jsEditor (mkPoint 2 2) [silent; python] [] = Fulfilled None /\
  state (step (FetchSettled 0 []) w) = HIDDEN.
Proof.
  intros w.
  destruct (no_content_resolves_null_and_hides jsEditor (mkPoint 2 2)
              [silent; python] []) as [H1 H2].
  - right. intros p [<- | [<- | []]] Hp Hv.
    + reflexivity.
    + discriminate Hv.
  - split; [reflexivity|]. split; [exact H1|].
    apply (H2 w 0%nat FromPointer). reflexivity.
Defined.

(** Before and after editor 1 is observed. *)
Lemma createPinnedDataTip_needs_manager_witness :
  Registry.createPinnedDataTip 1 (line 2 0 8) None 1%positive Registry.empty
  = Registry.Threw Registry.noManagerMessage /\
  Registry.createPinnedDataTip 1 (line 2 0 8) None 1%positive
    (Registry.observeTextEditor 1%positive jsEditor 500 Registry.empty)
  = Registry.Returned (mkPinned (mkDatatip 1 (line 2 0 8) None) 1%positive).
Proof.
  destruct (createPinnedDataTip_needs_manager Registry.empty 1 (line 2 0 8)
              None 1%positive) as (H1 & _).
  destruct (createPinnedDataTip_needs_manager
              (Registry.observeTextEditor 1%positive jsEditor 500 Registry.empty)
              1 (line 2 0 8) None 1%positive) as (_ & H2 & _).
  split.
  - apply H1. reflexivity.
  - apply (H2 (manager initial)). reflexivity.
Defined.

End Scenarios.

(** * Further properties of the code *)

(** ** The providers asked and what they are asked for *)

Section ProviderSelection.
Import Geometry Host Orchestrator GeometryFacts HostFacts OrchestratorFacts.

Local Abbreviation byPriority :=
  (fun p q : DatatipProvider => inclusionPriority p <= inclusionPriority q).

Lemma insertByPriority_HdRel q p l :
  inclusionPriority q <= inclusionPriority p ->
  HdRel byPriority q l -> HdRel byPriority q (insertByPriority p l).
Proof.
  intros Hqp H. destruct l as [|a l]; simpl.
  - now constructor.
  - destruct (inclusionPriority p <=? inclusionPriority a).
    + now constructor.
    + constructor. now inversion H.
Qed.

Lemma insertByPriority_sorted p l :
  Sorted byPriority l -> Sorted byPriority (insertByPriority p l).
Proof.
  induction l as [|q l IH]; simpl; intros H.
  - repeat constructor.
  - inversion H as [|? ? Hs Hh]; subst.
    destruct (inclusionPriority p <=? inclusionPriority q) eqn:E.
    + constructor; [exact H|]. constructor. now apply Z.leb_le.
    + apply Z.leb_gt in E. constructor; [now apply IH|].
      apply insertByPriority_HdRel; [lia | exact Hh].
Qed.

Lemma sortByPriority_sorted l : Sorted byPriority (sortByPriority l).
Proof.
  induction l as [|p l IH]; simpl; [constructor|].
  now apply insertByPriority_sorted.
Qed.

(** X1. The providers [fetchDatatip] asks are the registered providers of
    positive priority that are valid for the scope, each as often as it is
    registered, in ascending order of priority. *)
Theorem filterProvidersByScopeName_sorted_selection
    (providers : list DatatipProvider) (scope : string) :
  Permutation
    (filterProvidersByScopeName providers scope)
    (List.filter
       (fun p => (0 <? inclusionPriority p) && validForScope p scope)
       providers) /\
  StronglySorted byPriority (filterProvidersByScopeName providers scope) /\
  (forall p, In p (filterProvidersByScopeName providers scope) ->
             0 < inclusionPriority p /\ validForScope p scope = true) /\
  (length (filterProvidersByScopeName providers scope) <= length providers)%nat.
Proof.
  split; [apply sortByPriority_perm|].
  split.
  { apply Sorted_StronglySorted; [|apply sortByPriority_sorted].
    intros a b c. lia. }
  split.
  { intros p Hp. apply filterProvidersByScopeName_In in Hp. tauto. }
  unfold filterProvidersByScopeName.
  rewrite (Permutation_length (sortByPriority_perm _)).
  apply List.filter_length_le.
Qed.

Lemma promiseAll_rejected {A} (l : list (Settled A)) :
  promiseAll l = Rejected <-> In Rejected l.
Proof.
  induction l as [|s l IH]; simpl.
  - split; [discriminate | contradiction].
  - destruct s as [a|].
    + destruct (promiseAll l) eqn:E.
      * split; [discriminate|]. intros [H | H]; [discriminate|].
        apply IH in H. discriminate.
      * split; [|reflexivity]. intros _. right. now apply IH.
    + split; [now left | reflexivity].
Qed.

(** X2. [fetchDatatip] rejects exactly when one of the providers it asks
    rejects: one failing provider loses the answers of all the others. *)
Theorem fetchDatatip_rejects_iff
    (ed : TextEditor) (pos : Point) (allProviders : list DatatipProvider)
    (sched : list nat) :
  fetchDatatip ed pos allProviders sched = Rejected <->
  exists p, In p (filterProvidersByScopeName allProviders (scopeName ed)) /\
            datatip p ed pos = Rejected.
Proof.
  unfold fetchDatatip.
  destruct (filterProvidersByScopeName allProviders (scopeName ed))
    as [|q asked] eqn:E.
  { split; [discriminate | intros (p & [] & _)]. }
  destruct (promiseAll (map (fun p => datatip p ed pos) (q :: asked)))
    as [answers|] eqn:Ep.
  - split.
    + destruct (arrayCompact (zip_with renderProvider (q :: asked) answers));
        discriminate.
    + intros (p & Hp & Hr).
      assert (Hin : In Rejected (map (fun p => datatip p ed pos) (q :: asked))).
      { rewrite <- Hr. now apply (in_map (fun p => datatip p ed pos)). }
      apply promiseAll_rejected in Hin. congruence.
  - split; [|reflexivity]. intros _.
    apply promiseAll_rejected in Ep. apply in_map_iff in Ep.
    destruct Ep as (p & Hr & Hp). eauto.
Qed.

End ProviderSelection.

Section FetchResults.
Import Geometry Host Orchestrator GeometryFacts HostFacts OrchestratorFacts.

Variables (ed : TextEditor) (pos : Point) (allProviders : list DatatipProvider).

Local Abbreviation asked :=
  (filterProvidersByScopeName allProviders (scopeName ed)).

Lemma arrayCompact_In {A} (x : A) (l : list (option A)) :
  In x (arrayCompact l) -> In (Some x) l.
Proof.
  unfold arrayCompact. induction l as [|[a|] l IH]; simpl; intros H.
  - contradiction.
  - destruct H as [-> | H]; [now left | right; now apply IH].
  - right. now apply IH.
Qed.


(** An answer with content is the answer of one of the providers asked. *)
Lemma answers_In (answers : list (option Datatip)) (d : Datatip) :
  map (fun p => datatip p ed pos) asked = map Fulfilled answers ->
  In d (arrayCompact answers) ->
  exists p, In p asked /\ datatip p ed pos = Fulfilled (Some d).
Proof.
  intros H Hd. apply arrayCompact_In in Hd.
  apply (in_map Fulfilled) in Hd. rewrite <- H in Hd.
  apply in_map_iff in Hd. destruct Hd as (p & Hp & Hin). eauto.
Qed.

(** X3. The order in which the providers answer does not change what
    [fetchDatatip] resolves to, when the ranges they return are ordered. *)
Theorem fetchDatatip_order_independent (sched1 sched2 : list nat) :
  (forall p d, In p asked -> datatip p ed pos = Fulfilled (Some d) ->
               wf_range (range d)) ->
  fetchDatatip ed pos allProviders sched1
  = fetchDatatip ed pos allProviders sched2.
Proof.
  intros Hwf. unfold fetchDatatip.
  destruct asked as [|q rest] eqn:E; [reflexivity|].
  destruct (promiseAll (map (fun p => datatip p ed pos) (q :: rest)))
    as [answers|] eqn:Ep; [|reflexivity].
  apply promiseAll_fulfilled in Ep. rewrite <- E in Ep.
  assert (Hr : fold_left combine (arrayCompact (completionOrder sched1 answers)) None
               = fold_left combine (arrayCompact (completionOrder sched2 answers)) None).
  { destruct (arrayCompact answers) as [|d ds] eqn:Ed.
    - assert (N : forall sched, arrayCompact (completionOrder sched answers) = []).
      { intros sched. apply Permutation_nil. rewrite <- Ed.
        apply Permutation_sym. unfold arrayCompact.
        apply omap_Permutation, completionOrder_perm. }
      now rewrite !N.
    - assert (W : Forall (fun d => wf_range (range d)) (arrayCompact answers)).
      { apply List.Forall_forall. intros d' Hd'.
        destruct (answers_In answers d' Ep Hd') as (p & Hp & Hd).
        rewrite E in Hp. now apply (Hwf p). }
      assert (Hne : arrayCompact answers <> []) by (rewrite Ed; discriminate).
      destruct (combinedRange_smallest sched1 answers Hne W) as (R1 & E1 & S1).
      destruct (combinedRange_smallest sched2 answers Hne W) as (R2 & E2 & S2).
      rewrite E1, E2. f_equal. eapply smallest_cover_unique; eauto. }
  now rewrite Hr.
Qed.



End FetchResults.

(** ** More on the state machine *)

Module ForEditorCases.
Import Geometry Host Orchestrator ForEditor.

(** Case analysis on the state, the event and every test of the handlers. *)
Ltac break_match :=
  match goal with
  | |- context [match ?x with _ => _ end] => destruct x eqn:?
  end.

Ltac unfold_methods :=
  unfold step, deliver, settle, pinClick, dispose, _toggleDatatip,
    _handlePinClicked, _hideIfOutside, _hideOrCancel, _startFetching_resume,
    _startFetching, _setStartFetchingDebounce, call_startFetchingDebounce,
    _setState, _hideDatatip, renderDatatip, destroyMarker, getPosition,
    state in *.

Ltac open_state w :=
  destruct w as [[? ? [] ? ? ? ? ? ? ? ? ?] ? ? ? ? ? ? ?].

Ltac by_cases w ev :=
  open_state w; destruct ev; unfold_methods; simpl in *;
  repeat (break_match; simpl in *; try discriminate; try congruence).

Ltac by_cases_on w :=
  open_state w; unfold_methods; simpl in *;
  repeat (break_match; simpl in *; try discriminate; try congruence).

End ForEditorCases.

Section FetchesInFlight.
Import Geometry Host Orchestrator ForEditor ForEditorFacts ForEditorCases.

Lemma subscriptions_run evs :
  forall w, ~ In Dispose evs ->
            _subscriptions (manager (run evs w)) = _subscriptions (manager w).
Proof.
  induction evs as [|ev evs IH]; intros w H; simpl; [reflexivity|].
  rewrite IH by (intros Hin; apply H; now right).
  rewrite subscriptions_step. destruct ev; try reflexivity.
  exfalso. apply H. now left.
Qed.

(** X5. Until the manager is disposed, it has at most one fetch in flight,
    it has one only in the state Fetching, and its element holds a
    rendered tooltip only in the state Visible. *)
Theorem one_fetch_in_flight
    (editorId : positive) (ed : TextEditor) (providers : list DatatipProvider)
    (clock : Z) (evs : list Event) :
  ~ In Dispose evs ->
  let w := run evs (create editorId ed providers clock) in
  (length (inflight w) <= 1)%nat /\
  (inflight w <> [] -> state w = FETCHING) /\
  (state w <> VISIBLE -> rendered (_datatipElement (manager w)) = None).
Proof.
  intros Hd w.
  assert (Hs : _subscriptions (manager w) = true)
    by (subst w; now rewrite subscriptions_run).
  assert (H : fetch_invariant w)
    by apply fetch_invariant_run, fetch_invariant_create.
  unfold fetch_invariant in H. rewrite Hs in H.
  destruct H as (H1 & H2 & H3). repeat split; try assumption.
  intros Hne. tauto.
Qed.

Lemma mousemove_hidden e w :
  _subscriptions (manager w) = true -> state w = HIDDEN ->
  step (MouseMove e) w
  = this (set_startFetchingDebounce true) (this (set_lastMoveEvent (Some e)) w).
Proof.
  intros Hs Hh. unfold step. simpl. rewrite Hs.
  change (state (this (set_lastMoveEvent (Some e)) w)) with (state w).
  now rewrite Hh.
Qed.

Lemma mousemove_twice e1 e2 w :
  this (set_startFetchingDebounce true)
    (this (set_lastMoveEvent (Some e2))
       (this (set_startFetchingDebounce true)
          (this (set_lastMoveEvent (Some e1)) w)))
  = this (set_startFetchingDebounce true) (this (set_lastMoveEvent (Some e2)) w).
Proof. reflexivity. Qed.

Lemma run_mousemoves es :
  forall e w,
    _subscriptions (manager w) = true -> state w = HIDDEN ->
    run (map MouseMove (es ++ [e])) w
    = this (set_startFetchingDebounce true)
        (this (set_lastMoveEvent (Some e)) w).
Proof.
  induction es as [|e1 es IH]; intros e w Hs Hh; simpl.
  - now apply mousemove_hidden.
  - rewrite (mousemove_hidden e1 w Hs Hh).
    rewrite IH by assumption. apply mousemove_twice.
Qed.

(** X6. While the state is Hidden, a burst of pointer moves followed by the
    firing of the debounce timer starts at most one fetch, at the buffer
    position of the last pointer event; when that event is not over text,
    none starts. *)
Theorem mousemove_burst_starts_one_fetch
    (w : World) (es : list MouseEvent) (e : MouseEvent) :
  _subscriptions (manager w) = true ->
  state w = HIDDEN ->
  let w' := run (map MouseMove (es ++ [e]) ++ [DebounceFired]) w in
  match getBufferPosition (editor w) (Some e) with
  | Some p =>
      state w' = FETCHING /\
      inflight w'
      = inflight w ++ [mkFetch FromPointer (editor w) p (datatipProviders w)]
  | None => state w' = HIDDEN /\ inflight w' = inflight w
  end /\
  _startFetchingDebounce (manager w') = false /\
  step DebounceFired w' = w'.
Proof.
  intros Hs Hh w'. subst w'. unfold run. rewrite fold_left_app.
  fold (run (map MouseMove (es ++ [e])) w).
  rewrite (run_mousemoves es e w Hs Hh).
  clear Hs. revert Hh.
  destruct w as [[? ? st ? ? ? ? ? ? ? ? ?] ? ? ? ? ? ? ?].
  unfold step, _startFetching, _setState, getPosition, state.
  cbn -[getBufferPosition]. intros ->. cbn -[getBufferPosition].
  destruct (getBufferPosition editor0 (Some e));
    cbn -[getBufferPosition]; repeat split.
Qed.

(** X7. A scroll of the editor hides a visible tooltip, stamping the time,
    leaves the other states as they are, and forgets the last pointer
    event: a debounce timer that fires after it starts no fetch. *)
Theorem scroll_hides_and_forgets_pointer (w : World) :
  _subscriptions (manager w) = true ->
  let w' := step ScrollTopChanged w in
  _lastMoveEvent (manager w') = None /\
  (state w = VISIBLE ->
   state w' = HIDDEN /\ _lastHiddenTime (manager w') = now w /\
   _marker (manager w') = None) /\
  (state w <> VISIBLE -> state w' = state w) /\
  state (step DebounceFired w') = state w' /\
  inflight (step DebounceFired w') = inflight w.
Proof.
  intros Hs w'. subst w'. revert Hs.
  by_cases_on w; intros; repeat split; intros; congruence.
Qed.

End FetchesInFlight.

Section ShownTooltip.
Import Geometry Host Orchestrator ForEditor ForEditorFacts ForEditorCases Shown.

Lemma shown_invariant_step ev w :
  shown_invariant w -> shown_invariant (step ev w).
Proof.
  unfold shown_invariant. intros H. open_state w; simpl in H.
  1, 2: destruct H as (Hr & Hn & Hd).
  3: destruct H as (marker & items & Hm & Hr & He).
  all: simpl in *; subst.
  all: destruct ev; unfold_methods; simpl in *;
    repeat (break_match; simpl in *; try discriminate; try congruence).
  all: try (repeat split; (reflexivity || assumption || discriminate)).
  all: try (eexists; eexists; repeat split; reflexivity).
Qed.

Lemma shown_invariant_run evs :
  forall w, shown_invariant w -> shown_invariant (run evs w).
Proof.
  induction evs as [|ev evs IH]; intros w H; simpl; [exact H|].
  apply IH. now apply shown_invariant_step.
Qed.

Lemma shown_invariant_create editorId ed providers clock :
  shown_invariant (create editorId ed providers clock).
Proof. unfold shown_invariant. simpl. repeat split. discriminate. Qed.

(** X8. After any sequence of events: in the state Visible, [_range] is
    the range of the manager's marker and the element is displayed with
    the rendered providers; in the other states [_range] is empty, nothing
    is rendered into the element and it is not displayed. *)
Theorem shown_tooltip_invariant
    (editorId : positive) (ed : TextEditor) (providers : list DatatipProvider)
    (clock : Z) (evs : list Event) :
  let w := run evs (create editorId ed providers clock) in
  (state w = VISIBLE ->
   exists marker items,
     _marker (manager w) = Some marker /\
     markers w = [marker] /\
     _range (manager w) = Some (marker_range marker) /\
     _datatipElement (manager w) = mkElement DisplayBlock (Some items)) /\
  (state w <> VISIBLE ->
   _range (manager w) = None /\
   rendered (_datatipElement (manager w)) = None /\
   style_display (_datatipElement (manager w)) <> DisplayBlock).
Proof.
  intros w.
  assert (H : shown_invariant w)
    by apply shown_invariant_run, shown_invariant_create.
  assert (Hm : marker_invariant w)
    by apply invariant_run, invariant_create.
  unfold shown_invariant in H. unfold marker_invariant in Hm. split.
  - intros Hv. rewrite Hv in H. destruct H as (marker & items & H1 & H2 & H3).
    exists marker, items. rewrite H1 in Hm. tauto.
  - intros Hv. destruct (state w); try exact H. congruence.
Qed.

(** X9. While the tooltip is visible, a pointer move keeps it exactly when
    the pointer is inside the tooltip's element or over a position of the
    marker's range; otherwise the move hides it. *)
Theorem mousemove_while_visible
    (editorId : positive) (ed : TextEditor) (providers : list DatatipProvider)
    (clock : Z) (evs : list Event) (e : MouseEvent) :
  let w := run evs (create editorId ed providers clock) in
  _subscriptions (manager w) = true ->
  state w = VISIBLE ->
  exists marker,
    _marker (manager w) = Some marker /\
    (state (step (MouseMove e) w) = VISIBLE \/
     state (step (MouseMove e) w) = HIDDEN) /\
    (state (step (MouseMove e) w) = VISIBLE <->
     _insideDatatip (manager w) = true \/
     exists p, getBufferPosition (editor w) (Some e) = Some p /\
               containsPoint (marker_range marker) p = true).
Proof.
  intros w Hs Hv.
  assert (H : shown_invariant w)
    by apply shown_invariant_run, shown_invariant_create.
  unfold shown_invariant in H. rewrite Hv in H.
  destruct H as (marker & items & Hm & Hr & _).
  exists marker. split; [exact Hm|].
  clearbody w.
  destruct w as [[? ? st ? ins ? ? mk ? rg ? ?] ? edt ? ? ? ? ?].
  unfold state in Hv. simpl in Hv, Hs, Hr, Hm. subst.
  unfold step, deliver, _hideIfOutside, _setState, _hideDatatip, state.
  cbn -[getBufferPosition].
  destruct ins; cbn -[getBufferPosition].
  { split; [now left|]. split; [now left | reflexivity]. }
  destruct (getBufferPosition edt (Some e)) as [p|]; cbn -[getBufferPosition].
  - destruct (containsPoint (marker_range marker) p) eqn:Ec;
      cbn -[getBufferPosition].
    + split; [now left|]. split; [|reflexivity]. intros _. right. eauto.
    + split; [now right|]. split; [discriminate|].
      intros [H | (q & Hq & Hc)]; [discriminate|].
      injection Hq as <-. congruence.
  - split; [now right|]. split; [discriminate|].
    intros [H | (q & Hq & _)]; discriminate.
Qed.

End ShownTooltip.

Section Transitions.
Import Geometry Host Orchestrator ForEditor ForEditorFacts ForEditorCases.

(** X10. Whatever event takes the manager from another state to Hidden
    clears the suppressed position. *)
Theorem entering_hidden_clears_suppressed_position (w : World) (ev : Event) :
  state w <> HIDDEN ->
  state (step ev w) = HIDDEN ->
  _blacklistedPosition (manager (step ev w)) = None.
Proof.
  by_cases w ev; try congruence; try reflexivity.
Qed.

(** X11. [_lastHiddenTime] is the time at which a visible tooltip was last
    hidden: an event that takes the state from Visible to another state
    stamps the clock, an event that finds another state than Visible
    leaves the stamp alone; hiding from Fetching does not stamp. *)
Theorem lastHiddenTime_stamps_hides (w : World) (ev : Event) :
  (state w <> VISIBLE ->
   _lastHiddenTime (manager (step ev w)) = _lastHiddenTime (manager w)) /\
  (state w = VISIBLE -> state (step ev w) <> VISIBLE ->
   _lastHiddenTime (manager (step ev w)) = now w).
Proof.
  by_cases w ev; split; intros; try congruence; try reflexivity.
Qed.

(** X12. No event but the dismissal of a pinned tooltip itself removes a
    pinned tooltip: the manager's pins stay, also when the tooltip is
    hidden and when the manager is disposed, and an event adds at most
    one. *)
Theorem pinned_datatips_persist (w : World) (ev : Event) :
  (forall i, ev <> PinnedDisposed i) ->
  exists more,
    _pinnedDatatips (manager (step ev w)) = _pinnedDatatips (manager w) ++ more /\
    (length more <= 1)%nat.
Proof.
  intros Hev.
  assert (E : _pinnedDatatips (manager (step ev w)) = _pinnedDatatips (manager w)
              \/ exists d, _pinnedDatatips (manager (step ev w))
                           = _pinnedDatatips (manager w) ++ [d]).
  { revert Hev. by_cases w ev; intros Hev; try (left; reflexivity);
      try (right; eexists; reflexivity).
    all: exfalso; eapply Hev; reflexivity. }
  destruct E as [E | [d E]]; rewrite E.
  - exists []. rewrite app_nil_r. split; [reflexivity | simpl; lia].
  - exists [d]. split; [reflexivity | simpl; lia].
Qed.

(** X13. The toggle command changes nothing of a manager whose editor is
    not the active one, nor of a manager that is Fetching or Visible: it
    never hides a tooltip. *)
Theorem toggle_ignored_unless_hidden_and_active
    (w : World) (active : option positive) :
  active <> Some (_editor (manager w)) \/ state w <> HIDDEN ->
  step (ToggleCommand active) w = w.
Proof.
  intros H. unfold step. simpl.
  destruct (_subscriptions (manager w)); [|reflexivity].
  unfold _toggleDatatip.
  destruct (bool_decide (active = Some (_editor (manager w)))) eqn:Ea; simpl;
    [|reflexivity].
  apply bool_decide_eq_true_1 in Ea.
  destruct H as [H | H]; [congruence|].
  destruct (state w); simpl; try reflexivity. congruence.
Qed.

(** X14. When the last pointer event is left of the text, or more than the
    width of a character right of the column it resolves to, it has no
    buffer position: the debounce timer that fires then starts no fetch,
    and a dismissal then suppresses no position. *)
Theorem no_fetch_when_pointer_off_text
    (w : World) (e : MouseEvent) (text : TextComponent) :
  _lastMoveEvent (manager w) = Some e ->
  component (editor w) = Some text ->
  px_left (pixelPositionForMouseEvent text e) < 0 \/
  getDefaultCharWidth (editor w)
  < px_left (pixelPositionForMouseEvent text e)
    - px_left (pixelPositionForScreenPosition text
                 (screenPositionForMouseEvent text e)) ->
  getBufferPosition (editor w) (Some e) = None /\
  state (step DebounceFired w) = state w /\
  inflight (step DebounceFired w) = inflight w /\
  (state w <> VISIBLE ->
   _blacklistedPosition (manager (_hideOrCancel w)) = None).
Proof.
  intros He Ht Hoff.
  assert (G : getBufferPosition (editor w) (Some e) = None).
  { unfold getBufferPosition. rewrite Ht.
    destruct Hoff as [H | H].
    - apply Z.ltb_lt in H. now rewrite H.
    - apply Z.ltb_lt in H. rewrite H. now rewrite orb_true_r. }
  split; [exact G|].
  unfold step, _startFetching, _hideOrCancel, getPosition, state in *.
  cbn -[getBufferPosition].
  destruct w as [[? ? st ? ? ? lm ? ? ? deb ?] ? edt ? ? ? ? ?].
  cbn -[getBufferPosition] in *. subst lm. rewrite G.
  destruct deb, st; cbn -[getBufferPosition]; rewrite ?G;
    repeat split; congruence.
Qed.

(** A manager in the state Fetching without fetch in flight stays so. *)
Lemma wedged_step (w : World) (ev : Event) :
  ev <> Dispose ->
  state w = FETCHING -> inflight w = [] ->
  rendered (_datatipElement (manager w)) = None ->
  state (step ev w) = FETCHING /\ inflight (step ev w) = [] /\
  rendered (_datatipElement (manager (step ev w))) = None.
Proof.
  intros Hev Hs Hi Hr. revert Hev Hs Hi Hr.
  open_state w; unfold state; simpl; intros Hev Hs Hi Hr;
    try discriminate Hs; subst.
  destruct ev; unfold_methods; simpl in *;
    repeat (break_match; simpl in *; try discriminate; try congruence).
  all: repeat split; congruence.
Qed.

Lemma wedged_run (evs : list Event) :
  forall w,
    ~ In Dispose evs ->
    state w = FETCHING -> inflight w = [] ->
    rendered (_datatipElement (manager w)) = None ->
    state (run evs w) = FETCHING /\ inflight (run evs w) = [].
Proof.
  induction evs as [|ev evs IH]; intros w Hd Hs Hi Hr; simpl; [tauto|].
  destruct (wedged_step w ev) as (H1 & H2 & H3); try assumption.
  { intros ->. apply Hd. now left. }
  apply IH; try assumption. intros Hin. apply Hd. now right.
Qed.

(** X15. When the fetch in flight rejects, because one of its providers
    does, the manager stays in the state Fetching, and so it does whatever
    happens next, short of its disposal: no pointer move, key, toggle or
    timer starts a fetch or shows a tooltip any more. *)
Theorem rejected_fetch_leaves_fetching
    (editorId : positive) (ed : TextEditor) (providers : list DatatipProvider)
    (clock : Z) (evs : list Event) (k : nat) (sched : list nat) (f : Fetch)
    (later : list Event) :
  ~ In Dispose evs ->
  let w := run evs (create editorId ed providers clock) in
  inflight w !! k = Some f ->
  fetchDatatip (f_editor f) (f_position f) (f_providers f) sched = Rejected ->
  ~ In Dispose later ->
  state (step (FetchSettled k sched) w) = FETCHING /\
  state (run later (step (FetchSettled k sched) w)) = FETCHING /\
  inflight (run later (step (FetchSettled k sched) w)) = [].
Proof.
  intros Hd w Hk Hf Hl.
  assert (Hs : _subscriptions (manager w) = true)
    by (subst w; now rewrite subscriptions_run).
  assert (H : fetch_invariant w)
    by apply fetch_invariant_run, fetch_invariant_create.
  unfold fetch_invariant in H. rewrite Hs in H.
  destruct H as (H1 & H2 & H3).
  assert (Hst : state w = FETCHING).
  { destruct H1 as [H1 | H1]; [exact H1|]. rewrite H1 in Hk. discriminate. }
  assert (E : step (FetchSettled k sched) w
              = set_inflight (removeAt k (inflight w)) w).
  { unfold step. simpl. unfold settle. now rewrite Hk, Hf. }
  rewrite E. split; [exact Hst|].
  apply wedged_run; try assumption.
  - cbn [inflight set_inflight]. eapply removeAt_single; eauto.
  - apply H3. change (state w <> VISIBLE). congruence.
Qed.

End Transitions.

Section Showing.
Import Geometry Host Orchestrator ForEditor ForEditorFacts ForEditorCases Shown.

(** X16. The manager only becomes Visible by the completion of a fetch in
    flight that resolved to a result, with the position its caller looks
    at inside the combined range; the marker then spans that range, and a
    position suppressed while Fetching lies outside it. *)
Theorem visible_only_by_completion (w : World) (ev : Event) :
  state w <> VISIBLE ->
  state (step ev w) = VISIBLE ->
  exists k sched f data r p,
    ev = FetchSettled k sched /\
    inflight w !! k = Some f /\
    fetchDatatip (f_editor f) (f_position f) (f_providers f) sched
    = Fulfilled (Some data) /\
    cr_range data = Some r /\
    getPosition (f_source f) w = Some p /\
    containsPoint r p = true /\
    _marker (manager (step ev w)) = Some (mkMarker (nextMarker w) r) /\
    _range (manager (step ev w)) = Some r /\
    (state w = FETCHING ->
     forall b, _blacklistedPosition (manager w) = Some b ->
               containsPoint r b = false).
Proof.
  intros Hs Hv.
  assert (Hev : exists k sched, ev = FetchSettled k sched).
  { revert Hs Hv. by_cases w ev; intros; try congruence; eauto. }
  destruct Hev as (k & sched & ->).
  revert Hs Hv. unfold step. simpl. unfold settle.
  destruct (inflight w !! k) as [f|] eqn:Ek; [|congruence].
  destruct (fetchDatatip (f_editor f) (f_position f) (f_providers f) sched)
    as [[data|]|] eqn:Ef.
  - intros Hs Hv. exists k, sched, f, data.
    destruct (cr_range data) as [r|] eqn:Er.
    + revert Hs Hv.
      destruct f as [src fed fpos fprov]. simpl in *.
      open_state w; unfold _startFetching_resume, _setState, _hideDatatip,
        renderDatatip, getPosition, state;
        cbn -[getBufferPosition]; rewrite ?Er; cbn -[getBufferPosition];
        intros Hs Hv; try congruence.
      all: destruct src; cbn -[getBufferPosition] in *.
      all: repeat (match goal with
                   | H : context [match ?x with _ => _ end] |- _ =>
                       destruct x eqn:?; cbn -[getBufferPosition] in H;
                       try discriminate H
                   end).
      all: eexists; eexists; repeat split; try reflexivity; try eassumption.
      all: intros; congruence.
    + revert Hs Hv.
      open_state w; unfold _startFetching_resume, _setState, _hideDatatip,
        getPosition, state; cbn -[getBufferPosition]; rewrite ?Er;
        cbn -[getBufferPosition]; intros Hs Hv; try congruence.
      all: repeat (match goal with
                   | H : context [match ?x with _ => _ end] |- _ =>
                       destruct x eqn:?; cbn -[getBufferPosition] in H;
                       try discriminate H
                   end).
  - intros Hs Hv. exfalso. revert Hs Hv.
    open_state w; unfold _startFetching_resume, _setState, _hideDatatip, state;
      simpl; congruence.
  - intros Hs Hv. exfalso. apply Hs. exact Hv.
Qed.

End Showing.

Section PinsAndDismissals.
Import Geometry Host Orchestrator ForEditor ForEditorFacts ForEditorCases Shown.

(** What an event sequence from the constructor leaves true of a world
    whose element shows something. *)
Lemma rendered_is_visible
    (editorId : positive) (ed : TextEditor) (providers : list DatatipProvider)
    (clock : Z) (evs : list Event) :
  let w := run evs (create editorId ed providers clock) in
  marker_invariant w /\
  (rendered (_datatipElement (manager w)) <> None -> state w = VISIBLE).
Proof.
  intros w. split; [apply invariant_run, invariant_create|].
  assert (H : shown_invariant w)
    by apply shown_invariant_run, shown_invariant_create.
  unfold shown_invariant in H. intros Hr.
  destruct (state w); try reflexivity; tauto.
Qed.

(** X17. A click on the pin of a provider of the shown tooltip hides the
    tooltip, destroying its marker and stamping the time, and adds to the
    pinned tooltips one with that provider's datatip for the manager's
    editor; a provider that is not pinnable has no pin to click. *)
Theorem pin_click_pins_and_hides
    (editorId : positive) (ed : TextEditor) (providers : list DatatipProvider)
    (clock : Z) (evs : list Event)
    (i : nat) (items : list RenderedProvider) (item : RenderedProvider) :
  let w := run evs (create editorId ed providers clock) in
  rendered (_datatipElement (manager w)) = Some items ->
  items !! i = Some item ->
  (rp_action item = Some PIN ->
   state (step (PinClicked i) w) = HIDDEN /\
   _marker (manager (step (PinClicked i) w)) = None /\
   markers (step (PinClicked i) w) = [] /\
   _lastHiddenTime (manager (step (PinClicked i) w)) = now w /\
   _pinnedDatatips (manager (step (PinClicked i) w))
   = _pinnedDatatips (manager w) ++ [mkPinned (rp_datatip item) (_editor (manager w))]) /\
  (rp_action item = None -> step (PinClicked i) w = w).
Proof.
  intros w Hr Hi.
  destruct (rendered_is_visible editorId ed providers clock evs) as [Hm Hv].
  fold w in Hm, Hv.
  assert (Hs : state w = VISIBLE) by (apply Hv; congruence).
  clearbody w. clear Hv.
  unfold step. simpl. unfold pinClick. rewrite Hr, Hi. split.
  - intros ->. unfold marker_invariant in Hm. revert Hm Hs. clear.
    destruct w as [[? ? st ? ? ? ? mk ? ? ? ?] ? ? ? ms ? ? ?].
    unfold _handlePinClicked, _setState, _hideDatatip, destroyMarker, state.
    simpl. intros Hm ->. destruct mk as [marker|]; destruct Hm as [Hm ->];
      [|congruence].
    simpl. rewrite Nat.eqb_refl. simpl. repeat split.
  - now intros ->.
Qed.

(** X18. A mousedown on the tooltip's element or inside it changes
    nothing. A mousedown elsewhere, or a key without modifier, while the
    tooltip is visible hides it: the marker is destroyed, the time is
    stamped and no position is suppressed, so the same spot can show a
    tooltip again. *)
Theorem dismiss_while_visible_hides
    (editorId : positive) (ed : TextEditor) (providers : list DatatipProvider)
    (clock : Z) (evs : list Event) (ev : Event) :
  let w := run evs (create editorId ed providers clock) in
  ((exists path, ev = MouseDown path /\ insideDatatipElement path = true) ->
   step ev w = w) /\
  (_subscriptions (manager w) = true ->
   state w = VISIBLE ->
   (exists path, ev = MouseDown path /\ insideDatatipElement path = false) \/
   (exists e, ev = KeyDown e /\ hasModifier e = false) ->
   state (step ev w) = HIDDEN /\
   _marker (manager (step ev w)) = None /\
   markers (step ev w) = [] /\
   _lastHiddenTime (manager (step ev w)) = now w /\
   _blacklistedPosition (manager (step ev w)) = None).
Proof.
  intros w. split.
  { intros (path & -> & Hp). unfold step. simpl. rewrite Hp.
    now destruct (_subscriptions (manager w)). }
  intros Hsub Hs Hev.
  assert (Hm : marker_invariant w) by apply invariant_run, invariant_create.
  clearbody w.
  assert (E : step ev w = _setState HIDDEN w).
  { destruct Hev as [(path & -> & Hp) | (e & -> & He)];
      unfold step; simpl; rewrite Hsub; [rewrite Hp | rewrite He];
      unfold _hideOrCancel; now rewrite Hs. }
  rewrite E. unfold marker_invariant in Hm. revert Hm Hs. clear.
  destruct w as [[? ? st ? ? ? ? mk ? ? ? ?] ? ? ? ms ? ? ?].
  unfold _setState, _hideDatatip, destroyMarker, state. simpl.
  intros Hm ->. destruct mk as [marker|]; destruct Hm as [Hm ->];
    [|congruence].
  simpl. rewrite Nat.eqb_refl. simpl. repeat split.
Qed.

End PinsAndDismissals.

(** ** More on the registry *)

Section RegistryLifecycle.
Import Geometry Host Orchestrator.

(** X19. What [createPinnedDataTip] of the registry does for an editor is
    not changed by another editor being opened or destroyed, nor by
    providers being added or removed; once the registry is disposed it
    throws for every editor. *)
Theorem createPinnedDataTip_per_editor
    (reg : Registry.DatatipManager) (component : nat) (r : Range)
    (pinnable : option bool) (editor other : positive) :
  editor <> other ->
  (forall ed clock,
      Registry.createPinnedDataTip component r pinnable editor
        (Registry.observeTextEditor other ed clock reg)
      = Registry.createPinnedDataTip component r pinnable editor reg) /\
  Registry.createPinnedDataTip component r pinnable editor
    (Registry.editorDestroyed other reg)
  = Registry.createPinnedDataTip component r pinnable editor reg /\
  (forall p,
      Registry.createPinnedDataTip component r pinnable editor
        (Registry.addProvider p reg)
      = Registry.createPinnedDataTip component r pinnable editor reg) /\
  (forall i,
      Registry.createPinnedDataTip component r pinnable editor
        (Registry.removeProvider i reg)
      = Registry.createPinnedDataTip component r pinnable editor reg) /\
  Registry.createPinnedDataTip component r pinnable editor (Registry.dispose reg)
  = Registry.Threw Registry.noManagerMessage.
Proof.
  intros Hne. unfold Registry.createPinnedDataTip. simpl.
  split; [|split; [|split; [|split]]].
  - intros ed clock. rewrite lookup_insert_ne by congruence. reflexivity.
  - rewrite lookup_delete_ne by congruence. reflexivity.
  - reflexivity.
  - reflexivity.
  - rewrite lookup_empty. reflexivity.
Qed.

End RegistryLifecycle.

(** ** Providers changing and tooltips shown *)

Section ProvidersAndShowing.
Import Geometry Host Orchestrator ForEditor ForEditorFacts ForEditorCases.

(** The methods of the manager do not look at the providers, but for
    [_startFetching]. *)
Lemma setState_providers v s w :
  _setState s (set_datatipProviders v w)
  = set_datatipProviders v (_setState s w).
Proof.
  destruct w as [[bl el st eid ins lh lm mk pins rg deb subs] provs edt t ms n stray fl].
  unfold _setState, _hideDatatip, destroyMarker, state.
  destruct s, st, mk; reflexivity.
Qed.

Lemma resume_tail_providers v source data w1 :
  (let blacklisted :=
     match _blacklistedPosition (manager (set_datatipProviders v w1)),
           cr_range data with
     | Some p, Some r => containsPoint r p
     | _, _ => false
     end in
   if blacklisted then _setState HIDDEN (set_datatipProviders v w1)
   else
     match getPosition source (set_datatipProviders v w1), cr_range data with
     | Some currentPosition, Some r =>
         if containsPoint r currentPosition
         then
           let w := _setState VISIBLE (set_datatipProviders v w1) in
           let w := this (set_range (Some r)) w in
           let (marker, w) := renderDatatip r (renderedProviders data) w in
           this (set_marker (Some marker)) w
         else _setState HIDDEN (set_datatipProviders v w1)
     | _, _ => _setState HIDDEN (set_datatipProviders v w1)
     end)
  = set_datatipProviders v
      (let blacklisted :=
         match _blacklistedPosition (manager w1), cr_range data with
         | Some p, Some r => containsPoint r p
         | _, _ => false
         end in
       if blacklisted then _setState HIDDEN w1
       else
         match getPosition source w1, cr_range data with
         | Some currentPosition, Some r =>
             if containsPoint r currentPosition
             then
               let w := _setState VISIBLE w1 in
               let w := this (set_range (Some r)) w in
               let (marker, w) := renderDatatip r (renderedProviders data) w in
               this (set_marker (Some marker)) w
             else _setState HIDDEN w1
         | _, _ => _setState HIDDEN w1
         end).
Proof.
  cbv zeta.
  change (_blacklistedPosition (manager (set_datatipProviders v w1)))
    with (_blacklistedPosition (manager w1)).
  change (getPosition source (set_datatipProviders v w1))
    with (getPosition source w1).
  destruct (match _blacklistedPosition (manager w1), cr_range data with
            | Some p, Some r => containsPoint r p
            | _, _ => false
            end); [apply setState_providers|].
  destruct (getPosition source w1) as [p|]; [|apply setState_providers].
  destruct (cr_range data) as [r|]; [|apply setState_providers].
  destruct (containsPoint r p); [|apply setState_providers].
  rewrite setState_providers. reflexivity.
Qed.

Lemma resume_providers v source data w :
  _startFetching_resume source data (set_datatipProviders v w)
  = set_datatipProviders v (_startFetching_resume source data w).
Proof.
  unfold _startFetching_resume.
  destruct data as [data|]; [|apply setState_providers].
  change (state (set_datatipProviders v w)) with (state w).
  destruct (negb (state_eqb (state w) FETCHING)).
  - cbv zeta. rewrite setState_providers.
    apply (resume_tail_providers v source data (_setState HIDDEN w)).
  - apply (resume_tail_providers v source data w).
Qed.

Lemma settle_providers v k sched w :
  settle k sched (set_datatipProviders v w)
  = set_datatipProviders v (settle k sched w).
Proof.
  unfold settle. cbn [inflight set_datatipProviders].
  destruct (inflight w !! k) as [f|]; [|reflexivity].
  destruct (fetchDatatip _ _ _ _) as [data|]; [|reflexivity].
  apply (resume_providers v (f_source f) data
           (set_inflight (removeAt k (inflight w)) w)).
Qed.

Lemma providers_settle k sched w :
  datatipProviders (settle k sched w) = datatipProviders w.
Proof.
  assert (E : set_datatipProviders (datatipProviders w) w = w)
    by (destruct w; reflexivity).
  rewrite <- E at 1. rewrite settle_providers. reflexivity.
Qed.

(** X25. A fetch asks the providers registered when it starts: adding or
    removing a provider while the fetch is in flight changes neither what
    the fetch resolves to nor what its completion does; a fetch started
    after a provider was added asks that provider too. *)
Theorem providers_change_between_fetches
    (w : World) (k : nat) (sched : list nat) (p : DatatipProvider) (i : nat) :
  step (FetchSettled k sched) (step (ProviderAdded p) w)
  = step (ProviderAdded p) (step (FetchSettled k sched) w) /\
  step (FetchSettled k sched) (step (ProviderRemoved i) w)
  = step (ProviderRemoved i) (step (FetchSettled k sched) w) /\
  (forall source pos,
      state w = HIDDEN -> getPosition source w = Some pos ->
      inflight (_startFetching source (step (ProviderAdded p) w))
      = inflight w ++ [mkFetch source (editor w) pos (datatipProviders w ++ [p])]).
Proof.
  split; [|split].
  - unfold step. simpl. rewrite settle_providers, providers_settle.
    reflexivity.
  - unfold step. simpl. rewrite settle_providers, providers_settle.
    reflexivity.
  - intros source pos Hs Hp.
    unfold _startFetching, step. simpl.
    change (state (set_datatipProviders (datatipProviders w ++ [p]) w))
      with (state w).
    change (getPosition source
              (set_datatipProviders (datatipProviders w ++ [p]) w))
      with (getPosition source w).
    rewrite Hs, Hp. simpl.
    destruct (setState_frame FETCHING
                (set_datatipProviders (datatipProviders w ++ [p]) w))
      as (_ & _ & _ & Hi).
    cbn [inflight set_inflight]. rewrite Hi. f_equal.
    revert Hs. clear. open_state w; unfold state; simpl; congruence.
Qed.



End ProvidersAndShowing.

(** ** The commands of the diagnostics package *)

Module DiagnosticsFacts.
Import Geometry Diagnostics.

Lemma at_index_Some {A} (l : list A) (i : Z) :
  0 <= i < Z.of_nat (length l) <-> exists x, at_index l i = Some x.
Proof.
  unfold at_index. split.
  - intros [H1 H2]. destruct (i <? 0) eqn:E; [apply Z.ltb_lt in E; lia|].
    destruct (nth_error l (Z.to_nat i)) as [x|] eqn:En; [eauto|].
    apply nth_error_None in En. lia.
  - intros [x H]. destruct (i <? 0) eqn:E; [discriminate|].
    apply Z.ltb_ge in E.
    assert (Hn : nth_error l (Z.to_nat i) <> None) by congruence.
    apply nth_error_Some in Hn. lia.
Qed.

Lemma gotoCurrentIndex_spec ds i d :
  at_index ds i = Some d ->
  gotoCurrentIndex (mkShortcuts ds (Some i) None)
  = (Returned tt, mkShortcuts ds (Some i) None, [diagnosticLocation d]).
Proof.
  intros H. unfold gotoCurrentIndex, bind, get, invariant, element, ret,
    diagnosticLocation, goToLocation. simpl. rewrite H. simpl.
  destruct (range d); reflexivity.
Qed.

Lemma clamp_range len index : 0 < len -> 0 <= clamp len index < len.
Proof. unfold clamp. lia. Qed.

Lemma setIndex_spec ds idx tidx index :
  ds <> [] ->
  exists d,
    at_index ds (clamp (Z.of_nat (length ds)) index) = Some d /\
    setIndex index (mkShortcuts ds idx tidx)
    = (Returned tt,
       mkShortcuts ds (Some (clamp (Z.of_nat (length ds)) index)) None,
       [diagnosticLocation d]).
Proof.
  intros Hne.
  assert (Hl : 0 < Z.of_nat (length ds)) by (destruct ds; [congruence | simpl; lia]).
  destruct (proj1 (at_index_Some ds _) (clamp_range _ index Hl)) as [d Hd].
  exists d. split; [exact Hd|].
  unfold setIndex.
  cbv beta iota delta [bind set_traceIndex get set_index _diagnostics _index _traceIndex].
  destruct (Nat.eqb (length ds) 0) eqn:E;
    [apply Nat.eqb_eq in E; lia|].
  fold (clamp (Z.of_nat (length ds)) index).
  rewrite (gotoCurrentIndex_spec ds _ d Hd). reflexivity.
Qed.

Lemma setIndex_empty idx tidx index :
  setIndex index (mkShortcuts [] idx tidx)
  = (Returned tt, mkShortcuts [] None None, []).
Proof. reflexivity. Qed.

(** X20. With diagnostics to walk through, the four commands that move
    between diagnostics go to the first, the last, the next and the
    previous diagnostic and forget the trace; next and previous do not wrap
    around: at the last diagnostic next stays there, at the first previous
    stays there, and without current diagnostic next starts at the first
    and previous at the last. Each makes one call of [goToLocation], to the
    start of the diagnostic's range, or to its file alone when it has no
    range. *)
Theorem navigation_clamps (ks : KeyboardShortcuts) :
  _diagnostics ks <> [] ->
  let len := Z.of_nat (length (_diagnostics ks)) in
  let goes (c : Command) (target : Z) :=
    exists d,
      at_index (_diagnostics ks) target = Some d /\
      handle c ks
      = (Returned tt, mkShortcuts (_diagnostics ks) (Some target) None,
         [diagnosticLocation d]) in
  goes GoToFirst 0 /\
  goes GoToLast (len - 1) /\
  goes GoToNext
       (match _index ks with
        | None => 0
        | Some i => clamp len (i + 1)
        end) /\
  goes GoToPrevious
       (match _index ks with
        | None => len - 1
        | Some i => clamp len (i - 1)
        end) /\
  clamp len (len - 1 + 1) = len - 1 /\
  clamp len (0 - 1) = 0.
Proof.
  destruct ks as [ds idx tidx]. simpl. intros Hne.
  assert (Hl : 0 < Z.of_nat (length ds)) by (destruct ds; [congruence | simpl; lia]).
  assert (C0 : clamp (Z.of_nat (length ds)) 0 = 0) by (unfold clamp; lia).
  assert (Cl : clamp (Z.of_nat (length ds)) (Z.of_nat (length ds) - 1)
               = Z.of_nat (length ds) - 1) by (unfold clamp; lia).
  assert (G : forall index,
             exists d,
               at_index ds (clamp (Z.of_nat (length ds)) index) = Some d /\
               setIndex index (mkShortcuts ds idx tidx)
               = (Returned tt,
                  mkShortcuts ds (Some (clamp (Z.of_nat (length ds)) index)) None,
                  [diagnosticLocation d])).
  { intros index. now apply setIndex_spec. }
  split; [|split; [|split; [|split; [|split]]]].
  - destruct (G 0) as (d & Hd & E). rewrite C0 in *. exists d. now split.
  - destruct (G (Z.of_nat (length ds) - 1)) as (d & Hd & E). rewrite Cl in *.
    exists d. split; [exact Hd|].
    cbv beta iota delta [handle last bind get _diagnostics].
    rewrite E. reflexivity.
  - destruct idx as [i|];
      cbv beta iota delta [handle first bind get _index].
    + destruct (G (i + 1)) as (d & Hd & E). exists d. split; [exact Hd|].
      rewrite E. reflexivity.
    + destruct (G 0) as (d & Hd & E). rewrite C0 in *. exists d.
      split; [exact Hd|]. rewrite E. reflexivity.
  - destruct idx as [i|];
      cbv beta iota delta [handle last bind get _index _diagnostics].
    + destruct (G (i - 1)) as (d & Hd & E). exists d. split; [exact Hd|].
      rewrite E. reflexivity.
    + destruct (G (Z.of_nat (length ds) - 1)) as (d & Hd & E). rewrite Cl in *.
      exists d. split; [exact Hd|]. rewrite E. reflexivity.
  - unfold clamp. lia.
  - unfold clamp. lia.
Qed.

Lemma traceLocation_navigable tr :
  navigable tr = true <-> exists loc, traceLocation tr = Some loc.
Proof.
  unfold navigable, traceLocation, isSome.
  destruct (trace_filePath tr), (trace_range tr); simpl; split;
    try discriminate; eauto; intros [loc H]; discriminate.
Qed.

Lemma trySetCurrentTrace_spec traces c ds idx tidx tr :
  at_index traces c = Some tr ->
  trySetCurrentTrace traces c (mkShortcuts ds idx tidx)
  = match traceLocation tr with
    | Some loc => (Returned true, mkShortcuts ds idx (Some c), [loc])
    | None => (Returned false, mkShortcuts ds idx tidx, [])
    end.
Proof.
  intros H. unfold trySetCurrentTrace, element, traceLocation. rewrite H.
  cbv beta iota delta [bind ret].
  destruct (trace_filePath tr), (trace_range tr); reflexivity.
Qed.

Lemma leave_traces_spec ds i tidx d :
  at_index ds i = Some d ->
  (let* _ := set_traceIndex None in gotoCurrentIndex)
    (mkShortcuts ds (Some i) tidx)
  = (Returned tt, mkShortcuts ds (Some i) None, [diagnosticLocation d]).
Proof.
  intros H.
  cbv beta iota delta [bind set_traceIndex _diagnostics _index].
  now rewrite (gotoCurrentIndex_spec ds i d H).
Qed.

(** The loop of [nextTrace]: it stops at the first trace from the candidate
    on that one can go to, or leaves the traces for the diagnostic. *)
Lemma nextTraceLoop_spec traces ds i d :
  at_index ds i = Some d ->
  forall n c tidx,
    0 <= c -> n = Z.to_nat (Z.of_nat (length traces) - c) ->
    (exists t tr loc,
        c <= t < Z.of_nat (length traces) /\
        at_index traces t = Some tr /\
        traceLocation tr = Some loc /\
        (forall j trj, c <= j < t -> at_index traces j = Some trj ->
                       navigable trj = false) /\
        nextTraceLoop traces c n (mkShortcuts ds (Some i) tidx)
        = (Returned tt, mkShortcuts ds (Some i) (Some t), [loc]))
    \/
    ((forall j trj, c <= j -> at_index traces j = Some trj ->
                    navigable trj = false) /\
     nextTraceLoop traces c n (mkShortcuts ds (Some i) tidx)
     = (Returned tt, mkShortcuts ds (Some i) None, [diagnosticLocation d])).
Proof.
  intros Hd. induction n as [|n IH]; intros c tidx Hc Hn.
  - right. split.
    + intros j trj Hj Hat.
      assert (Hr : 0 <= j < Z.of_nat (length traces))
        by (apply at_index_Some; eauto).
      lia.
    + simpl. now apply leave_traces_spec.
  - assert (Hr : 0 <= c < Z.of_nat (length traces)) by lia.
    destruct (proj1 (at_index_Some traces c) Hr) as [tr Htr].
    cbn [nextTraceLoop]. cbv beta iota delta [bind].
    rewrite (trySetCurrentTrace_spec traces c ds (Some i) tidx tr Htr).
    destruct (traceLocation tr) as [loc|] eqn:El.
    + left. exists c, tr, loc. repeat split; try assumption; try lia.
    + assert (Hnav : navigable tr = false).
      { destruct (navigable tr) eqn:En; [|reflexivity].
        apply traceLocation_navigable in En. destruct En as [loc En].
        congruence. }
      destruct (IH (c + 1) tidx) as [(t & tr' & loc & Ht & Hat & Hl & Hb & E)
                                    | (Hb & E)]; try lia.
      * left. exists t, tr', loc. repeat split; try assumption; try lia.
        -- intros j trj Hj Hj'.
           destruct (Z.eq_dec j c) as [-> | Hne]; [congruence|].
           apply (Hb j trj); [lia | assumption].
        -- cbv iota beta. rewrite E. reflexivity.
      * right. split.
        -- intros j trj Hj Hj'.
           destruct (Z.eq_dec j c) as [-> | Hne]; [congruence|].
           apply (Hb j trj); [lia | assumption].
        -- cbv iota beta. rewrite E. reflexivity.
Qed.

(** The loop of [previousTrace]: the same, downwards. *)
Lemma previousTraceLoop_spec traces ds i d :
  at_index ds i = Some d ->
  forall n c tidx,
    c < Z.of_nat (length traces) -> n = Z.to_nat (c + 1) ->
    (exists t tr loc,
        0 <= t <= c /\
        at_index traces t = Some tr /\
        traceLocation tr = Some loc /\
        (forall j trj, t < j <= c -> at_index traces j = Some trj ->
                       navigable trj = false) /\
        previousTraceLoop traces c n (mkShortcuts ds (Some i) tidx)
        = (Returned tt, mkShortcuts ds (Some i) (Some t), [loc]))
    \/
    ((forall j trj, j <= c -> at_index traces j = Some trj ->
                    navigable trj = false) /\
     previousTraceLoop traces c n (mkShortcuts ds (Some i) tidx)
     = (Returned tt, mkShortcuts ds (Some i) None, [diagnosticLocation d])).
Proof.
  intros Hd. induction n as [|n IH]; intros c tidx Hc Hn.
  - right. split.
    + intros j trj Hj Hat.
      assert (Hr : 0 <= j < Z.of_nat (length traces))
        by (apply at_index_Some; eauto).
      lia.
    + simpl. now apply leave_traces_spec.
  - assert (Hr : 0 <= c < Z.of_nat (length traces)) by lia.
    destruct (proj1 (at_index_Some traces c) Hr) as [tr Htr].
    cbn [previousTraceLoop]. cbv beta iota delta [bind].
    rewrite (trySetCurrentTrace_spec traces c ds (Some i) tidx tr Htr).
    destruct (traceLocation tr) as [loc|] eqn:El.
    + left. exists c, tr, loc. repeat split; try assumption; try lia.
    + assert (Hnav : navigable tr = false).
      { destruct (navigable tr) eqn:En; [|reflexivity].
        apply traceLocation_navigable in En. destruct En as [loc En].
        congruence. }
      destruct (IH (c - 1) tidx) as [(t & tr' & loc & Ht & Hat & Hl & Hb & E)
                                    | (Hb & E)]; try lia.
      * left. exists t, tr', loc. repeat split; try assumption; try lia.
        -- intros j trj Hj Hj'.
           destruct (Z.eq_dec j c) as [-> | Hne]; [congruence|].
           apply (Hb j trj); [lia | assumption].
        -- cbv iota beta. rewrite E. reflexivity.
      * right. split.
        -- intros j trj Hj Hj'.
           destruct (Z.eq_dec j c) as [-> | Hne]; [congruence|].
           apply (Hb j trj); [lia | assumption].
        -- cbv iota beta. rewrite E. reflexivity.
Qed.

Lemma nextTrace_at ds i tidx d traces :
  at_index ds i = Some d -> trace d = Some traces ->
  nextTrace (mkShortcuts ds (Some i) tidx)
  = nextTraceLoop traces
      (match tidx with None => 0 | Some t => t + 1 end)
      (Z.to_nat (Z.of_nat (length traces)
                 - match tidx with None => 0 | Some t => t + 1 end))
      (mkShortcuts ds (Some i) tidx).
Proof.
  intros Hd Ht. unfold nextTrace, currentTraces, element.
  cbv beta iota delta [bind get ret _index _diagnostics _traceIndex].
  rewrite Hd. cbv beta iota delta [bind get ret _index _diagnostics _traceIndex].
  rewrite Ht.
  destruct (nextTraceLoop traces _ _ _) as [[out ks'] calls]. reflexivity.
Qed.

Lemma previousTrace_at ds i tidx d traces :
  at_index ds i = Some d -> trace d = Some traces ->
  previousTrace (mkShortcuts ds (Some i) tidx)
  = previousTraceLoop traces
      (match tidx with
       | None => Z.of_nat (length traces) - 1
       | Some t => t - 1
       end)
      (Z.to_nat (match tidx with
                 | None => Z.of_nat (length traces) - 1
                 | Some t => t - 1
                 end + 1))
      (mkShortcuts ds (Some i) tidx).
Proof.
  intros Hd Ht. unfold previousTrace, currentTraces, element.
  cbv beta iota delta [bind get ret _index _diagnostics _traceIndex].
  rewrite Hd. cbv beta iota delta [bind get ret _index _diagnostics _traceIndex].
  rewrite Ht.
  destruct (previousTraceLoop traces _ _ _) as [[out ks'] calls]. reflexivity.
Qed.

(** Without current diagnostic, or when it has no traces, the two trace
    commands do nothing. *)
Lemma trace_commands_idle ds idx tidx :
  match idx with
  | None => True
  | Some i => exists d, at_index ds i = Some d /\ trace d = None
  end ->
  nextTrace (mkShortcuts ds idx tidx) = (Returned tt, mkShortcuts ds idx tidx, []) /\
  previousTrace (mkShortcuts ds idx tidx)
  = (Returned tt, mkShortcuts ds idx tidx, []).
Proof.
  unfold nextTrace, previousTrace, currentTraces, element.
  destruct idx as [i|].
  - intros (d & Hd & Ht).
    cbv beta iota delta [bind get ret _index _diagnostics _traceIndex].
    rewrite Hd.
    cbv beta iota delta [bind get ret _index _diagnostics _traceIndex].
    rewrite Ht. split; reflexivity.
  - intros _. split; reflexivity.
Qed.

(** X21. With a current diagnostic that has traces, the command for the
    next trace goes to the first trace after the current one (from the
    first trace on when none is current) that has a file and a range,
    skipping those that have not; when there is none, it leaves the traces
    and goes back to the diagnostic itself. *)
Theorem next_trace_finds_first_navigable
    (ks : KeyboardShortcuts) (i : Z) (d : Message) (traces : list Trace) :
  consistent ks ->
  _index ks = Some i ->
  at_index (_diagnostics ks) i = Some d ->
  trace d = Some traces ->
  let start := match _traceIndex ks with None => 0 | Some t => t + 1 end in
  (exists t tr loc,
      start <= t < Z.of_nat (length traces) /\
      at_index traces t = Some tr /\
      traceLocation tr = Some loc /\
      (forall j trj, start <= j < t -> at_index traces j = Some trj ->
                     navigable trj = false) /\
      handle GoToNextTrace ks
      = (Returned tt, mkShortcuts (_diagnostics ks) (Some i) (Some t), [loc]))
  \/
  ((forall j trj, start <= j -> at_index traces j = Some trj ->
                  navigable trj = false) /\
   handle GoToNextTrace ks
   = (Returned tt, mkShortcuts (_diagnostics ks) (Some i) None,
      [diagnosticLocation d])).
Proof.
  destruct ks as [ds idx tidx]. unfold consistent. simpl.
  intros Hc -> Hd Ht. rewrite (nextTrace_at ds i tidx d traces Hd Ht).
  apply (nextTraceLoop_spec traces ds i d Hd); [|reflexivity].
  destruct tidx as [t|]; [|lia].
  destruct Hc as (d' & Hd' & traces' & tr & _ & Hat & _).
  assert (0 <= t < Z.of_nat (length traces')) by (apply at_index_Some; eauto).
  lia.
Qed.

(** X22. The command for the previous trace goes to the last trace before
    the current one (from the last trace on when none is current) that has
    a file and a range; when there is none, it leaves the traces and goes
    back to the diagnostic itself. *)
Theorem previous_trace_finds_last_navigable
    (ks : KeyboardShortcuts) (i : Z) (d : Message) (traces : list Trace) :
  consistent ks ->
  _index ks = Some i ->
  at_index (_diagnostics ks) i = Some d ->
  trace d = Some traces ->
  let start :=
    match _traceIndex ks with
    | None => Z.of_nat (length traces) - 1
    | Some t => t - 1
    end in
  (exists t tr loc,
      0 <= t <= start /\
      at_index traces t = Some tr /\
      traceLocation tr = Some loc /\
      (forall j trj, t < j <= start -> at_index traces j = Some trj ->
                     navigable trj = false) /\
      handle GoToPreviousTrace ks
      = (Returned tt, mkShortcuts (_diagnostics ks) (Some i) (Some t), [loc]))
  \/
  ((forall j trj, j <= start -> at_index traces j = Some trj ->
                  navigable trj = false) /\
   handle GoToPreviousTrace ks
   = (Returned tt, mkShortcuts (_diagnostics ks) (Some i) None,
      [diagnosticLocation d])).
Proof.
  destruct ks as [ds idx tidx]. unfold consistent. simpl.
  intros Hc -> Hd Ht. rewrite (previousTrace_at ds i tidx d traces Hd Ht).
  apply (previousTraceLoop_spec traces ds i d Hd); [|reflexivity].
  destruct tidx as [t|]; [|lia].
  destruct Hc as (d' & Hd' & traces' & tr & Ht' & Hat & _).
  assert (d' = d) by congruence. subst d'.
  assert (traces' = traces) by congruence. subst traces'.
  assert (0 <= t < Z.of_nat (length traces)) by (apply at_index_Some; eauto).
  lia.
Qed.

(** What [setIndex] leaves is consistent. *)
Lemma setIndex_consistent ds idx tidx index :
  exists ks' calls,
    setIndex index (mkShortcuts ds idx tidx) = (Returned tt, ks', calls) /\
    consistent ks' /\ _diagnostics ks' = ds /\ (length calls <= 1)%nat.
Proof.
  destruct ds as [|d0 ds].
  - exists (mkShortcuts [] None None), []. rewrite setIndex_empty.
    repeat split. simpl. lia.
  - destruct (setIndex_spec (d0 :: ds) idx tidx index) as (d & Hd & E);
      [discriminate|].
    eexists; eexists. split; [exact E|]. split; [|split; [reflexivity | simpl; lia]].
    unfold consistent. simpl _index. cbv iota. exists d. split; [exact Hd | exact I].
Qed.

(** Every command returns, and keeps the fields consistent. *)
Lemma handle_consistent (c : Command) (ks : KeyboardShortcuts) :
  consistent ks ->
  Forall (fun d => scope d = FileScope) (_diagnostics ks) ->
  exists ks' calls,
    handle c ks = (Returned tt, ks', calls) /\
    consistent ks' /\
    Forall (fun d => scope d = FileScope) (_diagnostics ks') /\
    (length calls <= 1)%nat.
Proof.
  intros Hc Hf. destruct ks as [ds idx tidx].
  assert (S : forall index,
             exists ks' calls,
               setIndex index (mkShortcuts ds idx tidx) = (Returned tt, ks', calls) /\
               consistent ks' /\
               Forall (fun d => scope d = FileScope) (_diagnostics ks') /\
               (length calls <= 1)%nat).
  { intros index.
    destruct (setIndex_consistent ds idx tidx index) as (ks' & calls & E & C & D & L).
    exists ks', calls. rewrite D. auto. }
  destruct c.
  - eexists; eexists. split; [reflexivity|]. split; [reflexivity|].
    split; [|simpl; lia]. simpl.
    apply List.Forall_forall. intros d Hd. apply filter_In in Hd.
    destruct Hd as [_ Hd]. now destruct (scope d).
  - apply (S 0).
  - destruct (S (Z.of_nat (length ds) - 1)) as (ks' & calls & E & R).
    exists ks', calls. split; [|exact R].
    cbv beta iota delta [handle last bind get _diagnostics]. rewrite E.
    reflexivity.
  - destruct idx as [i|]; cbv beta iota delta [handle first bind get _index].
    + destruct (S (i + 1)) as (ks' & calls & E & R).
      exists ks', calls. split; [|exact R]. rewrite E. reflexivity.
    + destruct (S 0) as (ks' & calls & E & R).
      exists ks', calls. split; [|exact R]. rewrite E. reflexivity.
  - destruct idx as [i|];
      cbv beta iota delta [handle last bind get _index _diagnostics].
    + destruct (S (i - 1)) as (ks' & calls & E & R).
      exists ks', calls. split; [|exact R]. rewrite E. reflexivity.
    + destruct (S (Z.of_nat (length ds) - 1)) as (ks' & calls & E & R).
      exists ks', calls. split; [|exact R]. rewrite E. reflexivity.
  - cbv beta iota delta [handle]. unfold consistent in Hc. simpl in Hc, Hf.
    destruct idx as [i|].
    + destruct Hc as (d & Hd & Ht).
      destruct (trace d) as [traces|] eqn:Etr.
      * rewrite (nextTrace_at ds i tidx d traces Hd Etr).
        assert (H0 : 0 <= match tidx with None => 0 | Some t => t + 1 end).
        { destruct tidx as [t|]; [|lia].
          destruct Ht as (traces' & tr & _ & Hat & _).
          assert (0 <= t < Z.of_nat (length traces'))
            by (apply at_index_Some; eauto).
          lia. }
        destruct (nextTraceLoop_spec traces ds i d Hd _ _ tidx H0 eq_refl)
          as [(t & tr & loc & Hr & Hat & Hl & _ & E) | (_ & E)].
        -- eexists; eexists. split; [exact E|].
           split; [|split; [exact Hf | simpl; lia]].
           unfold consistent. simpl. exists d. split; [exact Hd|].
           exists traces, tr. repeat split; try assumption.
           apply traceLocation_navigable. eauto.
        -- eexists; eexists. split; [exact E|].
           split; [|split; [exact Hf | simpl; lia]].
           unfold consistent. simpl. exists d. split; [exact Hd | exact I].
      * destruct (trace_commands_idle ds (Some i) tidx) as [E _]; [eauto|].
        eexists; eexists. split; [exact E|].
        split; [|split; [exact Hf | simpl; lia]].
        unfold consistent. simpl. exists d. split; [exact Hd|].
        rewrite Etr. exact Ht.
    + destruct (trace_commands_idle ds None tidx) as [E _]; [exact I|].
      eexists; eexists. split; [exact E|].
      split; [exact Hc | split; [exact Hf | simpl; lia]].
  - cbv beta iota delta [handle]. unfold consistent in Hc. simpl in Hc, Hf.
    destruct idx as [i|].
    + destruct Hc as (d & Hd & Ht).
      destruct (trace d) as [traces|] eqn:Etr.
      * rewrite (previousTrace_at ds i tidx d traces Hd Etr).
        assert (H0 : match tidx with
                     | None => Z.of_nat (length traces) - 1
                     | Some t => t - 1
                     end < Z.of_nat (length traces)).
        { destruct tidx as [t|]; [|lia].
          destruct Ht as (traces' & tr & Ht' & Hat & _).
          assert (traces' = traces) by congruence. subst traces'.
          assert (0 <= t < Z.of_nat (length traces))
            by (apply at_index_Some; eauto).
          lia. }
        destruct (previousTraceLoop_spec traces ds i d Hd _ _ tidx H0 eq_refl)
          as [(t & tr & loc & Hr & Hat & Hl & _ & E) | (_ & E)].
        -- eexists; eexists. split; [exact E|].
           split; [|split; [exact Hf | simpl; lia]].
           unfold consistent. simpl. exists d. split; [exact Hd|].
           exists traces, tr. repeat split; try assumption.
           apply traceLocation_navigable. eauto.
        -- eexists; eexists. split; [exact E|].
           split; [|split; [exact Hf | simpl; lia]].
           unfold consistent. simpl. exists d. split; [exact Hd | exact I].
      * destruct (trace_commands_idle ds (Some i) tidx) as [_ E]; [eauto|].
        eexists; eexists. split; [exact E|].
        split; [|split; [exact Hf | simpl; lia]].
        unfold consistent. simpl. exists d. split; [exact Hd|].
        rewrite Etr. exact Ht.
    + destruct (trace_commands_idle ds None tidx) as [_ E]; [exact I|].
      eexists; eexists. split; [exact E|].
      split; [exact Hc | split; [exact Hf | simpl; lia]].
Qed.

Lemma exec_consistent (c : Command) ks calls :
  consistent ks ->
  Forall (fun d => scope d = FileScope) (_diagnostics ks) ->
  exists ks' calls',
    exec c (ks, calls, false) = (ks', calls ++ calls', false) /\
    consistent ks' /\
    Forall (fun d => scope d = FileScope) (_diagnostics ks') /\
    (length calls' <= 1)%nat.
Proof.
  intros Hc Hf.
  destruct (handle_consistent c ks Hc Hf) as (ks' & calls' & E & R).
  exists ks', calls'. split; [|exact R]. unfold exec. now rewrite E.
Qed.

Lemma commands_consistent (cs : list Command) :
  forall ks calls,
    consistent ks ->
    Forall (fun d => scope d = FileScope) (_diagnostics ks) ->
    exists ks' calls',
      fold_left (fun st c => exec c st) cs (ks, calls, false)
      = (ks', calls ++ calls', false) /\
      consistent ks' /\
      Forall (fun d => scope d = FileScope) (_diagnostics ks') /\
      (length calls' <= length cs)%nat.
Proof.
  induction cs as [|c cs IH]; intros ks calls Hc Hf.
  - exists ks, []. rewrite app_nil_r. simpl. repeat split; auto.
  - cbn [fold_left].
    destruct (exec_consistent c ks calls Hc Hf) as (ks1 & calls1 & E & C1 & F1 & L1).
    rewrite E.
    destruct (IH ks1 (calls ++ calls1) C1 F1) as (ks2 & calls2 & E2 & C2 & F2 & L2).
    exists ks2, (calls1 ++ calls2). rewrite E2, app_assoc.
    repeat split; auto. rewrite length_app. simpl. lia.
Qed.

(** X23. Whatever commands are run and whatever messages arrive in
    between, no command throws: the two assertions of [gotoCurrentIndex]
    hold and no array is read outside its bounds. The index stays a place
    of the diagnostics, the trace index a trace of the current diagnostic
    that has a file and a range, only diagnostics of files are walked, and
    a command calls [goToLocation] at most once. *)
Theorem commands_never_throw (cs : list Command) :
  exists ks calls,
    runCommands cs = (ks, calls, false) /\
    consistent ks /\
    Forall (fun d => scope d = FileScope) (_diagnostics ks) /\
    (length calls <= length cs)%nat.
Proof.
  destruct (commands_consistent cs created []) as (ks & calls & E & R).
  - reflexivity.
  - constructor.
  - exists ks, calls. split; [exact E | exact R].
Qed.


End DiagnosticsFacts.

(** ** The further properties on the examples *)

Section FurtherScenarios.
Import Geometry Host Orchestrator ForEditor Examples.

(** The two providers of the example answer in either order. *)
Lemma fetchDatatip_order_independent_witness :
  fetchDatatip jsEditor (mkPoint 5 2) [providerB; disabled; providerA] [1%nat]
  = fetchDatatip jsEditor (mkPoint 5 2) [providerB; disabled; providerA] [].
Proof.
  apply (fetchDatatip_order_independent jsEditor (mkPoint 5 2)
           [providerB; disabled; providerA] [1%nat] []).
  intros p d Hin. vm_compute in Hin.
  destruct Hin as [<- | [<- | []]]; intros H; injection H as <-;
    unfold wf_range, ple; simpl; lia.
Defined.


(** The pointer has come to rest and the fetch is in flight. *)
Lemma one_fetch_in_flight_witness :
  let w := run [MouseMove overText; DebounceFired] initial in
  (length (inflight w) <= 1)%nat /\ state w = FETCHING.
Proof.
  destruct (one_fetch_in_flight 1%positive jsEditor [providerC] 500
              [MouseMove overText; DebounceFired]) as (H1 & H2 & _).
  - intros [H | [H | []]]; discriminate.
  - split; [exact H1|]. apply H2. vm_compute. discriminate.
Defined.

(** Three pointer moves, the last one over (2,2). *)
Lemma mousemove_burst_starts_one_fetch_witness :
  let w' := run (map MouseMove [mkMouseEvent 0 0; overText; overText]
                 ++ [DebounceFired]) initial in
  state w' = FETCHING /\
  inflight w' = [mkFetch FromPointer jsEditor (mkPoint 2 2) [providerC]].
Proof.
  destruct (mousemove_burst_starts_one_fetch initial
              [mkMouseEvent 0 0; overText] overText eq_refl eq_refl)
    as [H _].
  change (getBufferPosition (editor initial) (Some overText))
    with (Some (mkPoint 2 2)) in H.
  cbv beta iota in H. exact H.
Defined.

(** A scroll while the tooltip is shown. *)
Lemma scroll_hides_and_forgets_pointer_witness :
  state (step ScrollTopChanged (run shown initial)) = HIDDEN /\
  _lastMoveEvent (manager (step ScrollTopChanged (run shown initial))) = None.
Proof.
  destruct (scroll_hides_and_forgets_pointer (run shown initial) eq_refl)
    as (H1 & H2 & _).
  split; [exact (proj1 (H2 eq_refl)) | exact H1].
Defined.

(** The pointer moves within the range of the shown tooltip. *)
Lemma mousemove_while_visible_witness :
  state (step (MouseMove overText) (run shown initial)) = VISIBLE.
Proof.
  destruct (mousemove_while_visible 1%positive jsEditor [providerC] 500 shown
              overText eq_refl eq_refl) as (marker & Hm & _ & Hiff).
  apply (proj2 Hiff). right. exists (mkPoint 2 2). split; [reflexivity|].
  vm_compute in Hm. injection Hm as <-. reflexivity.
Defined.

(** A key pressed while fetching, and the completion that hides. *)
Lemma entering_hidden_clears_suppressed_position_witness :
  let w := run [MouseMove overText; DebounceFired; KeyDown plainKey] initial in
  _blacklistedPosition (manager w) = Some (mkPoint 2 2) /\
  _blacklistedPosition (manager (step (FetchSettled 0 []) w)) = None.
Proof.
  split; [reflexivity|].
  apply (entering_hidden_clears_suppressed_position
           (run [MouseMove overText; DebounceFired; KeyDown plainKey] initial)
           (FetchSettled 0 [])).
  - vm_compute. discriminate.
  - reflexivity.
Defined.

(** The manager is disposed after a tooltip was pinned. *)
Lemma pinned_datatips_persist_witness :
  exists more,
    _pinnedDatatips
      (manager (step Dispose (run (shown ++ [PinClicked 0]) initial)))
    = _pinnedDatatips (manager (run (shown ++ [PinClicked 0]) initial)) ++ more /\
    (length more <= 1)%nat.
Proof.
  apply (pinned_datatips_persist (run (shown ++ [PinClicked 0]) initial) Dispose).
  intros i. discriminate.
Defined.

(** The toggle command while the tooltip is shown. *)
Lemma toggle_ignored_unless_hidden_and_active_witness :
  step (ToggleCommand (Some 1%positive)) (run shown initial) = run shown initial.
Proof.
  apply toggle_ignored_unless_hidden_and_active.
  right. vm_compute. discriminate.
Defined.

(** The pointer far right of the end of line 2. *)
Lemma no_fetch_when_pointer_off_text_witness :
  let w := run [MouseMove (mkMouseEvent 400 40)] initial in
  getBufferPosition jsEditor (Some (mkMouseEvent 400 40)) = None /\
  inflight (step DebounceFired w) = [].
Proof.
  destruct (no_fetch_when_pointer_off_text
              (run [MouseMove (mkMouseEvent 400 40)] initial)
              (mkMouseEvent 400 40) text eq_refl eq_refl)
    as (H1 & _ & H3 & _).
  - right. vm_compute. reflexivity.
  - split; [exact H1 | exact H3].
Defined.

(** A provider that throws. *)
Lemma rejected_fetch_leaves_fetching_witness :
  let w := run [MouseMove overText; DebounceFired]
               (create 1%positive jsEditor [provider "broken" 1 Rejected] 500) in
  state (run [MouseMove overText; DebounceFired;
              ToggleCommand (Some 1%positive); KeyDown plainKey]
             (step (FetchSettled 0 []) w)) = FETCHING.
Proof.
  destruct (rejected_fetch_leaves_fetching 1%positive jsEditor
              [provider "broken" 1 Rejected] 500
              [MouseMove overText; DebounceFired] 0 []
              (mkFetch FromPointer jsEditor (mkPoint 2 2)
                       [provider "broken" 1 Rejected])
              [MouseMove overText; DebounceFired;
               ToggleCommand (Some 1%positive); KeyDown plainKey])
    as (_ & H & _).
  - intros [H | [H | []]]; discriminate.
  - reflexivity.
  - reflexivity.
  - intros [H | [H | [H | [H | []]]]]; discriminate.
  - exact H.
Defined.

(** The completion that shows the tooltip of the example. *)
Lemma visible_only_by_completion_witness :
  let w := run [MouseMove overText; DebounceFired] initial in
  exists r p,
    containsPoint r p = true /\
    _range (manager (step (FetchSettled 0 []) w)) = Some r.
Proof.
  destruct (visible_only_by_completion
              (run [MouseMove overText; DebounceFired] initial)
              (FetchSettled 0 []))
    as (k & sched & f & data & r & p & _ & _ & _ & _ & _ & Hc & _ & Hr & _).
  - vm_compute. discriminate.
  - reflexivity.
  - exists r, p. split; assumption.
Defined.

(** The pin of the shown tooltip is clicked. *)
Lemma pin_click_pins_and_hides_witness :
  state (step (PinClicked 0) (run shown initial)) = HIDDEN /\
  _pinnedDatatips (manager (step (PinClicked 0) (run shown initial)))
  = [mkPinned tipC 1%positive].
Proof.
  destruct (pin_click_pins_and_hides 1%positive jsEditor [providerC] 500 shown
              0 [mkRendered "C" (Some PIN) (Some "Pin this Datatip"%string) tipC]
              (mkRendered "C" (Some PIN) (Some "Pin this Datatip"%string) tipC)
              eq_refl eq_refl) as [H _].
  destruct (H eq_refl) as (H1 & _ & _ & _ & H5).
  split; [exact H1 | exact H5].
Defined.

(** Another editor is destroyed. *)
Lemma createPinnedDataTip_per_editor_witness :
  Registry.createPinnedDataTip 1 (line 2 0 8) None 1%positive
    (Registry.editorDestroyed 2%positive
       (Registry.observeTextEditor 1%positive jsEditor 500 Registry.empty))
  = Registry.createPinnedDataTip 1 (line 2 0 8) None 1%positive
      (Registry.observeTextEditor 1%positive jsEditor 500 Registry.empty).
Proof.
  destruct (createPinnedDataTip_per_editor
              (Registry.observeTextEditor 1%positive jsEditor 500 Registry.empty)
              1 (line 2 0 8) None 1%positive 2%positive) as (_ & H & _).
  - discriminate.
  - exact H.
Defined.


End FurtherScenarios.

Section DiagnosticsScenarios.
Import Geometry Diagnostics DiagnosticsExamples.

Lemma atFirst_consistent : consistent atFirst.
Proof. unfold consistent. simpl. exists inX. split; [reflexivity | exact I]. Qed.

(** From the first diagnostic to the second, whose range starts in row -1. *)
Lemma navigation_clamps_witness :
  handle GoToNext atFirst
  = (Returned tt, mkShortcuts [inX; inY] (Some 1) None,
     [mkLocation (Some "y.js"%string) (Some (-1)) (Some 0)]).
Proof.
  destruct (DiagnosticsFacts.navigation_clamps atFirst)
    as (_ & _ & (d & Hd & E) & _).
  - discriminate.
  - vm_compute in Hd. injection Hd as <-. exact E.
Defined.

(** At the first diagnostic, whose second trace alone has a file. *)
Lemma next_trace_finds_first_navigable_witness :
  exists tidx calls,
    handle GoToNextTrace atFirst
    = (Returned tt, mkShortcuts [inX; inY] (Some 0) tidx, calls).
Proof.
  destruct (DiagnosticsFacts.next_trace_finds_first_navigable atFirst 0 inX
              [withoutFile; withFile; withoutFile]
              atFirst_consistent eq_refl eq_refl eq_refl)
    as [(t & tr & loc & _ & _ & _ & _ & E) | (_ & E)];
    eexists; eexists; exact E.
Defined.

Lemma previous_trace_finds_last_navigable_witness :
  exists tidx calls,
    handle GoToPreviousTrace atFirst
    = (Returned tt, mkShortcuts [inX; inY] (Some 0) tidx, calls).
Proof.
  destruct (DiagnosticsFacts.previous_trace_finds_last_navigable atFirst 0 inX
              [withoutFile; withFile; withoutFile]
              atFirst_consistent eq_refl eq_refl eq_refl)
    as [(t & tr & loc & _ & _ & _ & _ & E) | (_ & E)];
    eexists; eexists; exact E.
Defined.

(** The walk of the example: the diagnostic, its one trace with a file,
    back to the diagnostic, and on to the next file. *)
Example diagnostics_walk :
  runCommands [MessagesUpdated [inX; ofProject; inY]; GoToNext;
               GoToNextTrace; GoToNextTrace; GoToNext; GoToNext]
  = (mkShortcuts [inX; inY] (Some 1) None,
     [mkLocation (Some "x.js"%string) (Some 3) (Some 1);
      mkLocation (Some "a.js"%string) (Some 3) (Some 1);
      mkLocation (Some "x.js"%string) (Some 3) (Some 1);
      mkLocation (Some "y.js"%string) (Some (-1)) (Some 0);
      mkLocation (Some "y.js"%string) (Some (-1)) (Some 0)],
     false).
Proof. reflexivity. Qed.

Example open_all_example :
  openAllFilesWithErrors [inX; ofProject; inY]
  = Opened [mkLocation (Some "x.js"%string) (Some 3) (Some 0);
            mkLocation (Some "y.js"%string) (Some 0) (Some 0)].
Proof. reflexivity. Qed.

End DiagnosticsScenarios.
